(** * ROCpd source plugin for Babeltrace 2: loader, channel classifier,
      payload mapper and stream multiplexer

    A shallow embedding of [bt_plugin_rocm_simple.py].  Python objects are
    rendered as records, dictionaries as [gmap]s keyed by strings, the
    iterator's instance attributes as one record threaded through every
    method, and exceptions as an explicit result type.

    What lies outside the plugin is kept abstract:
    - the database is seen through the outcome of the four queries the
      loader runs, each an [sqlite3.Error] or the list of matched rows,
      with the nullable columns as options;
    - the file system is the predicate [os.path.exists];
    - the trace library creates streams with fresh identities, builds the
      three kinds of messages, gives a new payload field the default of
      its type and stores an assigned value as it is;
    - strings are sequences of bytes, and [lower] maps the ASCII
      letters. *)

From Stdlib Require Import ZArith String Ascii List Lia Bool Sorted Permutation.
From stdpp Require Import base option gmap strings list pretty.

Open Scope Z_scope.
Open Scope string_scope.
Open Scope list_scope.

(** ** Python values and idioms *)

(** The scalar values found in result rows and in [event_args]. *)
Inductive py_value :=
| PyNone
| PyInt (z : Z)
| PyStr (s : string).

#[global] Instance py_value_eq_dec : EqDecision py_value.
Proof. solve_decision. Defined.

(** The exceptions the plugin raises or catches. *)
Inductive exn :=
| sqlite3_Error (msg : string)
| ValueError (msg : string)
| FileNotFoundError (msg : string)
| RecursionError
| StopIteration.

(** Outcome of a call: a returned value or a raised exception. *)
Inductive Exc (A : Type) :=
| Return (a : A)
| Raise (e : exn).
Arguments Return {A} a.
Arguments Raise {A} e.

(** [x or d] on an optional integer: [None] and [0] are both falsy. *)
Definition or_int (x : option Z) (d : Z) : Z :=
  match x with
  | Some z => if Z.eqb z 0 then d else z
  | None => d
  end.

(** [x or d] on an optional string: [None] and [''] are both falsy. *)
Definition or_str (x : option string) (d : string) : string :=
  match x with
  | Some s => if String.eqb s "" then d else s
  | None => d
  end.

(** A nullable column stored as a dictionary value. *)
Definition of_int (x : option Z) : py_value :=
  match x with Some z => PyInt z | None => PyNone end.

Definition of_str (x : option string) : py_value :=
  match x with Some s => PyStr s | None => PyNone end.

(** [str(n)] for an integer, as used by f-strings. *)
Definition str_int (z : Z) : string := pretty z.

(** [str(x)] for an optional integer: [None] prints as ['None']. *)
Definition str_opt_int (x : option Z) : string :=
  match x with Some z => str_int z | None => "None" end.

(** [c.lower()] on the ASCII letters. *)
Definition ascii_lower (c : ascii) : ascii :=
  let n := nat_of_ascii c in
  if (Nat.leb 65 n && Nat.leb n 90)%bool then ascii_of_nat (n + 32) else c.

Fixpoint lower (s : string) : string :=
  match s with
  | EmptyString => EmptyString
  | String c r => String (ascii_lower c) (lower r)
  end.

(** [sub in s] on strings. *)
Fixpoint str_in (sub s : string) : bool :=
  String.prefix sub s ||
  match s with
  | EmptyString => false
  | String _ r => str_in sub r
  end.

(** ** Data model *)

(** [RocmEventData]: the dataclass, field for field. *)
Record RocmEventData := {
  name : string;
  timestamp : Z;
  duration : option Z;
  category : option string;
  pid : option Z;
  tid : option Z;
  agent_id : option Z;
  queue_id : option Z;
  stream_id : option Z;
  channel_id : option string;
  event_args : option (gmap string py_value)
}.

(** ** Channel classifier *)

(** [RocmSourceIterator._get_channel_id] *)
Definition _get_channel_id (event_data : RocmEventData) : string :=
  let category := or_str (category event_data) "unknown" in
  match tid event_data with
  | Some t => category +:+ "_thread_" +:+ str_int t
  | None =>
    match queue_id event_data with
    | Some q => category +:+ "_queue_" +:+ str_int q
    | None =>
      match stream_id event_data with
      | Some s => category +:+ "_stream_" +:+ str_int s
      | None => category +:+ "_default_" +:+ str_int (or_int (pid event_data) 0)
      end
    end
  end.

(** The channel key as the specification words it: the category is
    replaced by ["unknown"] exactly when it is absent. *)
Definition channel_key_spec (cat : option string) (event_data : RocmEventData) : string :=
  let category := match cat with Some c => c | None => "unknown" end in
  match tid event_data with
  | Some t => category +:+ "_thread_" +:+ str_int t
  | None =>
    match queue_id event_data with
    | Some q => category +:+ "_queue_" +:+ str_int q
    | None =>
      match stream_id event_data with
      | Some s => category +:+ "_stream_" +:+ str_int s
      | None =>
        category +:+ "_default_" +:+
        str_int (match pid event_data with
                 | Some p => if Z.eqb p 0 then 0 else p
                 | None => 0
                 end)
      end
    end
  end.

(** A category that is present but empty counts as absent. *)
Definition present_category (event_data : RocmEventData) : option string :=
  match category event_data with
  | Some c => if String.eqb c "" then None else Some c
  | None => None
  end.

(** ** Trace objects of the host library *)

(** A structure member is a string or a signed integer of a given width. *)
Inductive field_class :=
| string_field_class
| signed_integer_field_class (width : N).

Record EventClass := {
  ec_name : string;
  payload_field_class : list (string * field_class)
}.

Record ClockClass := {
  clock_name : string;
  clock_description : string;
  frequency : Z
}.

Record StreamClass := {
  sc_name : string;
  default_clock_class : ClockClass
}.

(** A stream object: its identity is the rank at which the trace
    created it, and it remembers the class it was created from. *)
Record Stream := {
  stream_rank : nat;
  stream_class : StreamClass
}.

#[global] Instance ClockClass_eq_dec : EqDecision ClockClass.
Proof. solve_decision. Defined.
#[global] Instance StreamClass_eq_dec : EqDecision StreamClass.
Proof. solve_decision. Defined.
#[global] Instance Stream_eq_dec : EqDecision Stream.
Proof. solve_decision. Defined.

(** The trace object, reduced to the streams it has created so far. *)
Record Trace := {
  created_streams : list Stream
}.

(** [trace.create_stream(stream_class)]: a fresh stream object. *)
Definition create_stream (trace : Trace) (sc : StreamClass) : Stream * Trace :=
  let stream := {| stream_rank := length (created_streams trace); stream_class := sc |} in
  (stream, {| created_streams := created_streams trace ++ [stream] |}).

(** The event message, with the payload structure of its event class. *)
Record EventMessage := {
  event_class : EventClass;
  event_stream : Stream;
  default_clock_snapshot : Z;
  payload_field : gmap string py_value
}.

Inductive Message :=
| StreamBeginningMessage (stream : Stream)
| EventMsg (msg : EventMessage)
| StreamEndMessage (stream : Stream).

(** A freshly created field holds the default of its type. *)
Definition field_default (fc : field_class) : py_value :=
  match fc with
  | string_field_class => PyStr ""
  | signed_integer_field_class _ => PyInt 0
  end.

(** The payload structure of a new event: one field per declared member. *)
Definition new_payload_field (ec : EventClass) : gmap string py_value :=
  list_to_map (map (fun m => (fst m, field_default (snd m))) (payload_field_class ec)).

Definition _create_stream_beginning_message (stream : Stream) : Message :=
  StreamBeginningMessage stream.

Definition _create_stream_end_message (stream : Stream) : Message :=
  StreamEndMessage stream.

Definition _create_event_message (ec : EventClass) (stream : Stream)
    (clock_snapshot : Z) : EventMessage :=
  {| event_class := ec; event_stream := stream;
     default_clock_snapshot := clock_snapshot;
     payload_field := new_payload_field ec |}.

(** ** The data source *)

(** One result row per record family, with the columns each query selects.
    Columns the schema declares NOT NULL and the code uses as such
    ([start], [end], interned names) are plain; the others are nullable. *)
Record RegionRow := {
  r_start : Z; r_end : Z;
  r_nid : option Z; r_pid : option Z; r_tid : option Z;
  r_region_name : string;
  r_category : string;
  r_process_name : string;
  r_thread_name : string;
  r_extdata : option string;
  r_correlation_id : option Z;
  r_call_stack : option string;
  r_line_info : option string
}.

Record KernelRow := {
  k_start : Z; k_end : Z;
  k_nid : option Z; k_pid : option Z; k_tid : option Z; k_agent_id : option Z;
  k_dispatch_id : option Z; k_queue_id : option Z; k_stream_id : option Z;
  k_workgroup_size_x : option Z; k_workgroup_size_y : option Z;
  k_workgroup_size_z : option Z;
  k_grid_size_x : option Z; k_grid_size_y : option Z; k_grid_size_z : option Z;
  k_kernel_name : option string; k_display_name : option string
}.

Record MemoryCopyRow := {
  c_start : Z; c_end : Z;
  c_nid : option Z; c_pid : option Z; c_tid : option Z;
  c_size : option Z; c_dst_agent_id : option Z; c_src_agent_id : option Z;
  c_queue_id : option Z; c_stream_id : option Z;
  c_name : string
}.

Record MemoryAllocationRow := {
  a_start : Z; a_end : Z;
  a_nid : option Z; a_pid : option Z; a_tid : option Z;
  a_size : option Z; a_agent_id : option Z;
  a_name : string
}.

(** What [cursor.execute(query)] followed by [cursor.fetchall()] gives:
    the matched rows in query order, or an [sqlite3.Error]. *)
Inductive QueryResult (R : Type) :=
| QueryFails (msg : string)
| QueryRows (rows : list R).
Arguments QueryFails {R} msg.
Arguments QueryRows {R} rows.

Definition execute_fetchall {R} (q : QueryResult R) : Exc (list R) :=
  match q with
  | QueryFails msg => Raise (sqlite3_Error msg)
  | QueryRows rows => Return rows
  end.

(** The open connection, seen through the four queries the loader issues. *)
Record Connection := {
  region_query : QueryResult RegionRow;
  kernel_dispatch_query : QueryResult KernelRow;
  memory_copy_query : QueryResult MemoryCopyRow;
  memory_allocation_query : QueryResult MemoryAllocationRow
}.

(** ** The iterator object *)

Record ChannelInfo := {
  ch_category : option string;
  ch_channel_id : string;
  ch_tid : option Z;
  ch_queue_id : option Z;
  ch_stream_id : option Z
}.

(** The dictionary of stream classes: its only key is ['default']. *)
Record StreamClasses := {
  default_stream_class : StreamClass
}.

(** The instance attributes of [RocmSourceIterator], and the lines it
    printed. *)
Record RocmSourceIterator := {
  _db_path : string;
  _stream_classes : StreamClasses;
  _event_classes : gmap string EventClass;
  _clock_class : ClockClass;
  _trace : Trace;
  _streams : gmap string Stream;
  _channels : gmap string ChannelInfo;
  _conn : Connection;
  _state : string;
  _current_events : list RocmEventData;
  _event_index : nat;
  _current_stream : option Stream;
  stdout : list string
}.

Definition set_streams (self : RocmSourceIterator) (trace : Trace)
    (streams : gmap string Stream) (channels : gmap string ChannelInfo) :=
  {| _db_path := _db_path self; _stream_classes := _stream_classes self;
     _event_classes := _event_classes self; _clock_class := _clock_class self;
     _trace := trace; _streams := streams; _channels := channels;
     _conn := _conn self; _state := _state self;
     _current_events := _current_events self;
     _event_index := _event_index self;
     _current_stream := _current_stream self; stdout := stdout self |}.

Definition set_state (self : RocmSourceIterator) (state : string) :=
  {| _db_path := _db_path self; _stream_classes := _stream_classes self;
     _event_classes := _event_classes self; _clock_class := _clock_class self;
     _trace := _trace self; _streams := _streams self;
     _channels := _channels self;
     _conn := _conn self; _state := state;
     _current_events := _current_events self;
     _event_index := _event_index self;
     _current_stream := _current_stream self; stdout := stdout self |}.

Definition set_current_events (self : RocmSourceIterator)
    (events : list RocmEventData) :=
  {| _db_path := _db_path self; _stream_classes := _stream_classes self;
     _event_classes := _event_classes self; _clock_class := _clock_class self;
     _trace := _trace self; _streams := _streams self;
     _channels := _channels self;
     _conn := _conn self; _state := _state self;
     _current_events := events;
     _event_index := _event_index self;
     _current_stream := _current_stream self; stdout := stdout self |}.

Definition set_event_index (self : RocmSourceIterator) (index : nat) :=
  {| _db_path := _db_path self; _stream_classes := _stream_classes self;
     _event_classes := _event_classes self; _clock_class := _clock_class self;
     _trace := _trace self; _streams := _streams self;
     _channels := _channels self;
     _conn := _conn self; _state := _state self;
     _current_events := _current_events self;
     _event_index := index;
     _current_stream := _current_stream self; stdout := stdout self |}.

Definition set_current_stream (self : RocmSourceIterator)
    (stream : option Stream) :=
  {| _db_path := _db_path self; _stream_classes := _stream_classes self;
     _event_classes := _event_classes self; _clock_class := _clock_class self;
     _trace := _trace self; _streams := _streams self;
     _channels := _channels self;
     _conn := _conn self; _state := _state self;
     _current_events := _current_events self;
     _event_index := _event_index self;
     _current_stream := stream; stdout := stdout self |}.

(** [print(line)] *)
Definition print (self : RocmSourceIterator) (line : string) :=
  {| _db_path := _db_path self; _stream_classes := _stream_classes self;
     _event_classes := _event_classes self; _clock_class := _clock_class self;
     _trace := _trace self; _streams := _streams self;
     _channels := _channels self;
     _conn := _conn self; _state := _state self;
     _current_events := _current_events self;
     _event_index := _event_index self;
     _current_stream := _current_stream self;
     stdout := stdout self ++ [line] |}.

(** [self._current_events.append(event)] *)
Definition append_event (self : RocmSourceIterator) (event : RocmEventData) :=
  set_current_events self (_current_events self ++ [event]).

(** ** Record loader *)

(** The dictionary literal [{k1: v1, ...}]. *)
Definition dict (items : list (string * py_value)) : gmap string py_value :=
  list_to_map items.

(** [d.update({k1: v1, ...})]: later bindings replace earlier ones. *)
Definition dict_update (d : gmap string py_value)
    (items : list (string * py_value)) : gmap string py_value :=
  fold_left (fun d kv => <[fst kv := snd kv]> d) items d.

Definition region_common_args (row : RegionRow) : gmap string py_value :=
  dict [("region_name", PyStr (r_region_name row));
        ("category", PyStr (r_category row));
        ("process_name", PyStr (r_process_name row));
        ("thread_name", PyStr (r_thread_name row));
        ("pid", of_int (r_pid row));
        ("tid", of_int (r_tid row));
        ("nid", of_int (r_nid row));
        ("correlation_id", PyInt (or_int (r_correlation_id row) 0));
        ("extdata", PyStr (or_str (r_extdata row) "{}"));
        ("call_stack", PyStr (or_str (r_call_stack row) "{}"));
        ("line_info", PyStr (or_str (r_line_info row) "{}"))].

Definition region_start_event (row : RegionRow) : RocmEventData :=
  let category := r_category row in
  let start_args :=
    dict_update (region_common_args row)
      [("event_type", PyStr "region_start"); ("duration", PyInt 0)] in
  {| name := r_region_name row +:+ "_start";
     timestamp := r_start row;
     duration := None;
     category := Some category;
     pid := r_pid row;
     tid := r_tid row;
     agent_id := None; queue_id := None; stream_id := None;
     channel_id := None;
     event_args := Some start_args |}.

Definition region_end_event (row : RegionRow) : RocmEventData :=
  let category := r_category row in
  let duration_ := r_end row - r_start row in
  let end_args :=
    dict_update (region_common_args row)
      [("event_type", PyStr "region_end"); ("duration", PyInt duration_)] in
  {| name := r_region_name row +:+ "_end";
     timestamp := r_end row;
     duration := None;
     category := Some category;
     pid := r_pid row;
     tid := r_tid row;
     agent_id := None; queue_id := None; stream_id := None;
     channel_id := None;
     event_args := Some end_args |}.

(** [_load_region_events]: the query runs first; its failure is caught
    and printed; otherwise every row appends a start and an end event. *)
Definition _load_region_events (self : RocmSourceIterator)
    : Exc RocmSourceIterator :=
  match execute_fetchall (region_query (_conn self)) with
  | Return rows =>
      Return (fold_left
                (fun self row =>
                   append_event (append_event self (region_start_event row))
                                (region_end_event row))
                rows self)
  | Raise (sqlite3_Error e) =>
      Return (print self ("Error loading region events: " +:+ e))
  | Raise other => Raise other
  end.

Definition kernel_name_of (row : KernelRow) : string :=
  or_str (k_kernel_name row) (or_str (k_display_name row) "unknown_kernel").

Definition size3 (x y z : option Z) : string :=
  str_opt_int x +:+ "x" +:+ str_opt_int y +:+ "x" +:+ str_opt_int z.

Definition kernel_start_event (row : KernelRow) : RocmEventData :=
  let kernel_name := kernel_name_of row in
  {| name := "kernel_dispatch_start";
     timestamp := k_start row;
     duration := None;
     category := Some "KERNEL_DISPATCH";
     pid := k_pid row;
     tid := k_tid row;
     agent_id := k_agent_id row;
     queue_id := k_queue_id row;
     stream_id := k_stream_id row;
     channel_id := None;
     event_args := Some (dict
       [("kernel_name", PyStr kernel_name);
        ("dispatch_id", of_int (k_dispatch_id row));
        ("queue_id", PyInt (or_int (k_queue_id row) 0));
        ("stream_id", PyInt (or_int (k_stream_id row) 0));
        ("workgroup_size",
         PyStr (size3 (k_workgroup_size_x row) (k_workgroup_size_y row)
                      (k_workgroup_size_z row)));
        ("grid_size",
         PyStr (size3 (k_grid_size_x row) (k_grid_size_y row)
                      (k_grid_size_z row)));
        ("event_type", PyStr "kernel_dispatch_start");
        ("duration", PyInt 0)]) |}.

Definition kernel_end_event (row : KernelRow) : RocmEventData :=
  let kernel_name := kernel_name_of row in
  {| name := "kernel_dispatch_end";
     timestamp := k_end row;
     duration := None;
     category := Some "KERNEL_DISPATCH";
     pid := k_pid row;
     tid := k_tid row;
     agent_id := k_agent_id row;
     queue_id := k_queue_id row;
     stream_id := k_stream_id row;
     channel_id := None;
     event_args := Some (dict
       [("kernel_name", PyStr kernel_name);
        ("dispatch_id", of_int (k_dispatch_id row));
        ("event_type", PyStr "kernel_dispatch_end");
        ("duration", PyInt (k_end row - k_start row))]) |}.

Definition _load_kernel_dispatch_events (self : RocmSourceIterator)
    : Exc RocmSourceIterator :=
  match execute_fetchall (kernel_dispatch_query (_conn self)) with
  | Return rows =>
      Return (fold_left
                (fun self row =>
                   append_event (append_event self (kernel_start_event row))
                                (kernel_end_event row))
                rows self)
  | Raise (sqlite3_Error e) =>
      Return (print self ("Error loading kernel dispatch events: " +:+ e))
  | Raise other => Raise other
  end.

Definition memory_copy_start_event (row : MemoryCopyRow) : RocmEventData :=
  {| name := "memory_copy_start";
     timestamp := c_start row;
     duration := None;
     category := Some "MEMORY_COPY";
     pid := c_pid row;
     tid := c_tid row;
     agent_id := None;
     queue_id := c_queue_id row;
     stream_id := c_stream_id row;
     channel_id := None;
     event_args := Some (dict
       [("copy_name", PyStr (c_name row));
        ("size", PyInt (or_int (c_size row) 0));
        ("dst_agent_id", PyInt (or_int (c_dst_agent_id row) 0));
        ("src_agent_id", PyInt (or_int (c_src_agent_id row) 0));
        ("queue_id", PyInt (or_int (c_queue_id row) 0));
        ("stream_id", PyInt (or_int (c_stream_id row) 0));
        ("event_type", PyStr "memory_copy_start");
        ("duration", PyInt 0)]) |}.

Definition memory_copy_end_event (row : MemoryCopyRow) : RocmEventData :=
  {| name := "memory_copy_end";
     timestamp := c_end row;
     duration := None;
     category := Some "MEMORY_COPY";
     pid := c_pid row;
     tid := c_tid row;
     agent_id := None;
     queue_id := c_queue_id row;
     stream_id := c_stream_id row;
     channel_id := None;
     event_args := Some (dict
       [("copy_name", PyStr (c_name row));
        ("size", PyInt (or_int (c_size row) 0));
        ("event_type", PyStr "memory_copy_end");
        ("duration", PyInt (c_end row - c_start row))]) |}.

Definition _load_memory_copy_events (self : RocmSourceIterator)
    : Exc RocmSourceIterator :=
  match execute_fetchall (memory_copy_query (_conn self)) with
  | Return rows =>
      Return (fold_left
                (fun self row =>
                   append_event (append_event self (memory_copy_start_event row))
                                (memory_copy_end_event row))
                rows self)
  | Raise (sqlite3_Error e) =>
      Return (print self ("Error loading memory copy events: " +:+ e))
  | Raise other => Raise other
  end.

Definition memory_allocation_start_event (row : MemoryAllocationRow)
    : RocmEventData :=
  {| name := "memory_allocation_start";
     timestamp := a_start row;
     duration := None;
     category := Some "MEMORY_ALLOCATION";
     pid := a_pid row;
     tid := a_tid row;
     agent_id := a_agent_id row;
     queue_id := None; stream_id := None;
     channel_id := None;
     event_args := Some (dict
       [("allocation_name", PyStr (a_name row));
        ("size", PyInt (or_int (a_size row) 0));
        ("agent_id", PyInt (or_int (a_agent_id row) 0));
        ("event_type", PyStr "memory_allocation_start");
        ("duration", PyInt 0)]) |}.

Definition memory_allocation_end_event (row : MemoryAllocationRow)
    : RocmEventData :=
  {| name := "memory_allocation_end";
     timestamp := a_end row;
     duration := None;
     category := Some "MEMORY_ALLOCATION";
     pid := a_pid row;
     tid := a_tid row;
     agent_id := a_agent_id row;
     queue_id := None; stream_id := None;
     channel_id := None;
     event_args := Some (dict
       [("allocation_name", PyStr (a_name row));
        ("size", PyInt (or_int (a_size row) 0));
        ("event_type", PyStr "memory_allocation_end");
        ("duration", PyInt (a_end row - a_start row))]) |}.

Definition _load_memory_allocation_events (self : RocmSourceIterator)
    : Exc RocmSourceIterator :=
  match execute_fetchall (memory_allocation_query (_conn self)) with
  | Return rows =>
      Return (fold_left
                (fun self row =>
                   append_event
                     (append_event self (memory_allocation_start_event row))
                     (memory_allocation_end_event row))
                rows self)
  | Raise (sqlite3_Error e) =>
      Return (print self ("Error loading memory allocation events: " +:+ e))
  | Raise other => Raise other
  end.

(** [list.sort(key=...)]: a stable sort, written as the insertion sort
    that keeps an element in front of the later elements of equal key.
    Any sort that is stable returns the same list (lemma
    [sort_by_key_unique]). *)
Fixpoint insert_by_key {A} (key : A -> Z) (x : A) (l : list A) : list A :=
  match l with
  | [] => [x]
  | y :: r => if Z.leb (key x) (key y) then x :: y :: r
              else y :: insert_by_key key x r
  end.

Fixpoint sort_by_key {A} (key : A -> Z) (l : list A) : list A :=
  match l with
  | [] => []
  | x :: r => insert_by_key key x (sort_by_key key r)
  end.

(** Sequencing of calls that may raise. *)
Definition and_then {A B} (c : Exc A) (k : A -> Exc B) : Exc B :=
  match c with
  | Return a => k a
  | Raise e => Raise e
  end.

(** [_load_events] *)
Definition _load_events (self : RocmSourceIterator) : Exc RocmSourceIterator :=
  let self := set_current_events self [] in
  and_then (_load_region_events self) (fun self =>
  and_then (_load_kernel_dispatch_events self) (fun self =>
  and_then (_load_memory_copy_events self) (fun self =>
  and_then (_load_memory_allocation_events self) (fun self =>
  let self :=
    set_current_events self (sort_by_key timestamp (_current_events self)) in
  Return (print self ("Loaded " +:+
                      str_int (Z.of_nat (length (_current_events self))) +:+
                      " events from database")))))).

(** ** Event payload mapper *)

(** [_get_event_class_name_by_category] *)
Definition _get_event_class_name_by_category (event_data : RocmEventData)
    : string :=
  match category event_data with
  | Some c =>
    if negb (String.eqb c "") then
      let category := lower c in
      if String.eqb category "hip_runtime_api_ext" then "region_event"
      else if String.eqb category "hip_compiler_api_ext" then "region_event"
      else if String.eqb category "kernel_dispatch" then "kernel_dispatch_event"
      else if String.eqb category "memory_copy" then "memory_copy_event"
      else if String.eqb category "memory_allocation"
           then "memory_allocation_event"
      else if str_in "region" (name event_data) then "region_event"
      else "generic_event"
    else "generic_event"
  | None => "generic_event"
  end.

(** The class look-up of [__next__], with its fall back to the generic
    class; [None] when even that one is missing. *)
Definition lookup_event_class (event_classes : gmap string EventClass)
    (event_data : RocmEventData) : option EventClass :=
  let event_class_name := _get_event_class_name_by_category event_data in
  match event_classes !! event_class_name with
  | Some event_class => Some event_class
  | None => event_classes !! "generic_event"
  end.

(** The loop of [__next__] that sets the event fields: a key is stored
    when the payload structure has it and its value is not [None]. *)
Definition set_event_fields (event_args : option (gmap string py_value))
    (payload : gmap string py_value) : gmap string py_value :=
  match event_args with
  | Some args =>
      map_fold
        (fun key value payload =>
           if bool_decide (key ∈ dom payload) then
             if bool_decide (value ≠ PyNone) then <[key := value]> payload
             else payload
           else payload)
        payload args
  | None => payload
  end.

(** ** Stream multiplexer *)

(** [_get_or_create_stream] *)
Definition _get_or_create_stream (self : RocmSourceIterator)
    (event_data : RocmEventData) : Stream * RocmSourceIterator :=
  let channel_id := _get_channel_id event_data in
  match _streams self !! channel_id with
  | None =>
      let stream_class := default_stream_class (_stream_classes self) in
      let '(stream, trace) := create_stream (_trace self) stream_class in
      (stream,
       set_streams self trace
         (<[channel_id := stream]> (_streams self))
         (<[channel_id := {| ch_category := category event_data;
                             ch_channel_id := channel_id;
                             ch_tid := tid event_data;
                             ch_queue_id := queue_id event_data;
                             ch_stream_id := stream_id event_data |}]>
            (_channels self)))
  | Some stream => (stream, self)
  end.

(** [__next__], with the depth of its calls to itself made explicit:
    [depth] bounds the nested calls, and running out of it is the
    interpreter's [RecursionError]. *)
Fixpoint next_at_depth (depth : nat) (self : RocmSourceIterator)
    : Exc Message * RocmSourceIterator :=
  match depth with
  | O => (Raise RecursionError, self)
  | S depth =>
    if String.eqb (_state self) "stream_beginning" then
      match _current_events self with
      | first_event :: _ =>
          let '(stream, self) := _get_or_create_stream self first_event in
          let self := set_current_stream self (Some stream) in
          let self := set_state self "events" in
          (Return (_create_stream_beginning_message stream), self)
      | [] =>
          (Raise StopIteration, set_state self "done")
      end
    else if String.eqb (_state self) "events" then
      match _current_events self !! _event_index self with
      | Some event_data =>
          let self := set_event_index self (_event_index self + 1) in
          let '(stream, self) := _get_or_create_stream self event_data in
          if bool_decide (Some stream ≠ _current_stream self) then
            let self := set_current_stream self (Some stream) in
            (Return (_create_stream_beginning_message stream), self)
          else
            match lookup_event_class (_event_classes self) event_data with
            | None => next_at_depth depth self
            | Some event_class =>
                let msg :=
                  _create_event_message event_class stream
                                        (timestamp event_data) in
                let msg :=
                  {| event_class := event_class;
                     event_stream := event_stream msg;
                     default_clock_snapshot := default_clock_snapshot msg;
                     payload_field :=
                       set_event_fields (event_args event_data)
                                        (payload_field msg) |} in
                (Return (EventMsg msg), self)
            end
      | None =>
          next_at_depth depth (set_state self "stream_end")
      end
    else if String.eqb (_state self) "stream_end" then
      match _current_stream self with
      | Some stream =>
          let self := set_current_stream self None in
          let self := set_state self "done" in
          (Return (_create_stream_end_message stream), self)
      | None =>
          (Raise StopIteration, set_state self "done")
      end
    else (Raise StopIteration, self)
  end.

(** The deepest nesting [__next__] can reach from a state: one call per
    remaining event, one for the exhausted cursor, one for the end. *)
Definition depth_needed (self : RocmSourceIterator) : nat :=
  (length (_current_events self) - _event_index self + 2)%nat.

(** [__next__] *)
Definition __next__ (self : RocmSourceIterator)
    : Exc Message * RocmSourceIterator :=
  next_at_depth (depth_needed self) self.

(** The consumer's pulls: messages are taken until the iterator raises. *)
Fixpoint pull (n : nat) (self : RocmSourceIterator)
    : list Message * RocmSourceIterator :=
  match n with
  | O => ([], self)
  | S n =>
    match __next__ self with
    | (Return msg, self) =>
        let '(msgs, self) := pull n self in (msg :: msgs, self)
    | (Raise _, self) => ([], self)
    end
  end.

(** The produced message sequence: a begin, at most one message per
    event and an end, so [length events + 3] pulls reach the end of the
    stream. *)
Definition messages (self : RocmSourceIterator) : list Message :=
  fst (pull (length (_current_events self) + 3) self).

(** ** The source component *)

(** The parameter values the host passes in. *)
Inductive bt_value :=
| BtNull
| BtBool (b : bool)
| BtInteger (z : Z)
| BtString (s : string).

(** [str(value)] on a parameter value. *)
Definition str_value (v : bt_value) : string :=
  match v with
  | BtNull => "None"
  | BtBool true => "True"
  | BtBool false => "False"
  | BtInteger z => str_int z
  | BtString s => s
  end.

(** The user data attached to the output port. *)
Record PortData := {
  port_db_path : string;
  port_stream_classes : StreamClasses;
  port_event_classes : gmap string EventClass;
  port_clock_class : ClockClass
}.

Record RocmSource := {
  source_db_path : string;
  source_clock_class : ClockClass;
  source_stream_classes : StreamClasses;
  source_event_classes : gmap string EventClass;
  output_ports : list (string * PortData)
}.

Definition _create_clock_class (name description : string) (frequency : Z)
    : ClockClass :=
  {| clock_name := name; clock_description := description;
     frequency := frequency |}.

Definition _create_stream_classes (clock_class : ClockClass) : StreamClasses :=
  {| default_stream_class :=
       {| sc_name := "rocm_stream"; default_clock_class := clock_class |} |}.

Definition create_region_field_class : list (string * field_class) :=
  [("region_name", string_field_class);
   ("event_type", string_field_class);
   ("category", string_field_class);
   ("process_name", string_field_class);
   ("thread_name", string_field_class);
   ("pid", signed_integer_field_class 64);
   ("tid", signed_integer_field_class 64);
   ("nid", signed_integer_field_class 64);
   ("correlation_id", signed_integer_field_class 64);
   ("duration", signed_integer_field_class 64);
   ("extdata", string_field_class);
   ("call_stack", string_field_class);
   ("line_info", string_field_class)].

Definition kernel_payload_fc : list (string * field_class) :=
  [("kernel_name", string_field_class);
   ("event_type", string_field_class);
   ("dispatch_id", signed_integer_field_class 64);
   ("queue_id", signed_integer_field_class 64);
   ("stream_id", signed_integer_field_class 64);
   ("workgroup_size", string_field_class);
   ("grid_size", string_field_class);
   ("duration", signed_integer_field_class 64)].

Definition memory_payload_fc : list (string * field_class) :=
  [("copy_name", string_field_class);
   ("event_type", string_field_class);
   ("size", signed_integer_field_class 64);
   ("dst_agent_id", signed_integer_field_class 64);
   ("src_agent_id", signed_integer_field_class 64);
   ("queue_id", signed_integer_field_class 64);
   ("stream_id", signed_integer_field_class 64);
   ("duration", signed_integer_field_class 64)].

Definition allocation_payload_fc : list (string * field_class) :=
  [("allocation_name", string_field_class);
   ("event_type", string_field_class);
   ("size", signed_integer_field_class 64);
   ("agent_id", signed_integer_field_class 64);
   ("duration", signed_integer_field_class 64)].

Definition generic_payload_fc : list (string * field_class) :=
  [("event_type", string_field_class)].

Definition create_event_class (name : string)
    (payload : list (string * field_class)) : EventClass :=
  {| ec_name := name; payload_field_class := payload |}.

(** [_create_event_classes] *)
Definition _create_event_classes : gmap string EventClass :=
  let event_classes := ∅ in
  let event_classes :=
    <["region_event" :=
        create_event_class "region_event" create_region_field_class]>
      event_classes in
  let event_classes :=
    <["kernel_dispatch_event" :=
        create_event_class "kernel_dispatch_event" kernel_payload_fc]>
      event_classes in
  let event_classes :=
    <["memory_copy_event" :=
        create_event_class "memory_copy_event" memory_payload_fc]>
      event_classes in
  let event_classes :=
    <["memory_allocation_event" :=
        create_event_class "memory_allocation_event" allocation_payload_fc]>
      event_classes in
  let event_classes :=
    <["generic_event" :=
        create_event_class "generic_event" generic_payload_fc]>
      event_classes in
  event_classes.

(** [RocmSource.__init__]; [exists_] is [os.path.exists] on the file
    system the component runs on. *)
Definition RocmSource__init__ (exists_ : string -> bool)
    (params : gmap string bt_value) : Exc RocmSource :=
  let db_path :=
    str_value (match params !! "db-path" with
               | Some v => v
               | None => BtString "24228_results.db"
               end) in
  if String.eqb db_path "" then
    Raise (ValueError "Database path parameter 'db-path' is required")
  else if negb (exists_ db_path) then
    Raise (FileNotFoundError ("Database file not found: " +:+ db_path))
  else
    let clock_class :=
      _create_clock_class "rocm_clock" "ROCm profiler clock" 1000000000 in
    let stream_classes := _create_stream_classes clock_class in
    let event_classes := _create_event_classes in
    Return {| source_db_path := db_path;
              source_clock_class := clock_class;
              source_stream_classes := stream_classes;
              source_event_classes := event_classes;
              output_ports :=
                [("out", {| port_db_path := db_path;
                            port_stream_classes := stream_classes;
                            port_event_classes := event_classes;
                            port_clock_class := clock_class |})] |}.

(** [RocmSourceIterator.__init__]; [connect] is [sqlite3.connect]. *)
Definition RocmSourceIterator__init__ (connect : string -> Connection)
    (output_port : PortData) : Exc RocmSourceIterator :=
  let self :=
    {| _db_path := port_db_path output_port;
       _stream_classes := port_stream_classes output_port;
       _event_classes := port_event_classes output_port;
       _clock_class := port_clock_class output_port;
       _trace := {| created_streams := [] |};
       _streams := ∅;
       _channels := ∅;
       _conn := connect (port_db_path output_port);
       _state := "stream_beginning";
       _current_events := [];
       _event_index := 0;
       _current_stream := None;
       stdout := [] |} in
  _load_events self.

(** The host's run of the source: the component is built, then one
    iterator per output port is built and drained.  The result is the
    message sequence the consumer sees, or the exception that stopped
    the construction. *)
Definition run_source (exists_ : string -> bool)
    (connect : string -> Connection) (params : gmap string bt_value)
    : Exc (list Message) :=
  and_then (RocmSource__init__ exists_ params) (fun source =>
  match output_ports source with
  | (_, port) :: _ =>
      and_then (RocmSourceIterator__init__ connect port) (fun self =>
      Return (messages self))
  | [] => Return []
  end).

(** ** Sample inputs *)

Definition sample_event (n : string) (ts : Z) (cat : option string)
    (t q : option Z) : RocmEventData :=
  {| name := n; timestamp := ts; duration := None; category := cat;
     pid := Some 1; tid := t; agent_id := None; queue_id := q;
     stream_id := None; channel_id := None;
     event_args :=
       Some (dict [("event_type", PyStr n); ("duration", PyInt 0);
                   ("kernel_name", PyNone); ("unlisted", PyInt 7)]) |}.

(** Two regions of thread 1 and one kernel dispatch of queue 1. *)
Definition region_a : RocmEventData :=
  sample_event "main_region_start" 1000 (Some "HIP_RUNTIME_API_EXT") (Some 1) None.
Definition kernel_b : RocmEventData :=
  sample_event "kernel_dispatch_start" 1500 (Some "KERNEL_DISPATCH") None (Some 1).
Definition kernel_b' : RocmEventData :=
  sample_event "kernel_dispatch_end" 3500 (Some "KERNEL_DISPATCH") None (Some 1).
Definition region_a' : RocmEventData :=
  sample_event "main_region_end" 4000 (Some "HIP_RUNTIME_API_EXT") (Some 1) None.

Definition sample_clock : ClockClass :=
  _create_clock_class "rocm_clock" "ROCm profiler clock" 1000000000.

Definition sample_connection : Connection :=
  {| region_query :=
       QueryRows [{| r_start := 1000; r_end := 1005; r_nid := Some 1;
                     r_pid := Some 1; r_tid := Some 1;
                     r_region_name := "main_region";
                     r_category := "unknown";
                     r_process_name := "test_app";
                     r_thread_name := "main_thread";
                     r_extdata := None; r_correlation_id := None;
                     r_call_stack := None; r_line_info := None |}];
     kernel_dispatch_query :=
       QueryRows [{| k_start := 1500; k_end := 3500; k_nid := Some 1;
                     k_pid := Some 1; k_tid := None; k_agent_id := Some 2;
                     k_dispatch_id := Some 1; k_queue_id := Some 1;
                     k_stream_id := Some 1;
                     k_workgroup_size_x := Some 256;
                     k_workgroup_size_y := Some 1;
                     k_workgroup_size_z := Some 1;
                     k_grid_size_x := Some 1024; k_grid_size_y := Some 1;
                     k_grid_size_z := Some 1;
                     k_kernel_name := Some "vector_add";
                     k_display_name := None |}];
     memory_copy_query := QueryFails "no such table: rocpd_memory_copy";
     memory_allocation_query := QueryRows [] |}.

(** An iterator right after construction, holding the given events. *)
Definition sample_iterator (events : list RocmEventData)
    : RocmSourceIterator :=
  {| _db_path := "trace.db";
     _stream_classes := _create_stream_classes sample_clock;
     _event_classes := _create_event_classes;
     _clock_class := sample_clock;
     _trace := {| created_streams := [] |};
     _streams := ∅; _channels := ∅;
     _conn := sample_connection;
     _state := "stream_beginning";
     _current_events := events;
     _event_index := 0; _current_stream := None; stdout := [] |}.

(** ** Statements of the specification, as propositions *)

(** A channel key follows the priority rule with the category replaced
    only when absent. *)
Definition channel_key_as_specified : Prop :=
  forall event_data,
    _get_channel_id event_data
    = channel_key_spec (category event_data) event_data.


(** A missing source-path parameter is a configuration error. *)
Definition missing_path_is_configuration_error : Prop :=
  forall exists_ params,
    params !! "db-path" = None ->
    exists msg, RocmSource__init__ exists_ params = Raise (ValueError msg).

(** The source path the component settles on. *)
Definition chosen_db_path (params : gmap string bt_value) : string :=
  str_value (match params !! "db-path" with
             | Some v => v
             | None => BtString "24228_results.db"
             end).



(** ** Properties of the loader, as the specification words them *)

(** The events one record family contributes: a start and an end event
    per matched row, in row order; none when its query fails. *)
Definition family_events {R} (start_event end_event : R -> RocmEventData)
    (q : QueryResult R) : list RocmEventData :=
  match q with
  | QueryRows rows =>
      flat_map (fun row => [start_event row; end_event row]) rows
  | QueryFails _ => []
  end.

(** All contributions, family after family. *)
Definition events_in_load_order (conn : Connection) : list RocmEventData :=
  family_events region_start_event region_end_event (region_query conn) ++
  family_events kernel_start_event kernel_end_event
    (kernel_dispatch_query conn) ++
  family_events memory_copy_start_event memory_copy_end_event
    (memory_copy_query conn) ++
  family_events memory_allocation_start_event memory_allocation_end_event
    (memory_allocation_query conn).

(** The context fields the channel key is computed from. *)
Definition same_channel_context (a b : RocmEventData) : Prop :=
  category a = category b /\ pid a = pid b /\ tid a = tid b /\
  queue_id a = queue_id b /\ stream_id a = stream_id b.

(** [event_args[key]], when there is one. *)
Definition arg (key : string) (event_data : RocmEventData) : option py_value :=
  match event_args event_data with
  | Some args => args !! key
  | None => None
  end.

(** A row's two events: same context, the row's two timestamps, duration
    0 at the start and [end - start] at the end. *)
Definition paired_events {R} (start_ end_ : R -> Z)
    (start_event end_event : R -> RocmEventData) : Prop :=
  forall row,
    same_channel_context (start_event row) (end_event row) /\
    _get_channel_id (start_event row) = _get_channel_id (end_event row) /\
    timestamp (start_event row) = start_ row /\
    timestamp (end_event row) = end_ row /\
    arg "duration" (start_event row) = Some (PyInt 0) /\
    arg "duration" (end_event row) = Some (PyInt (end_ row - start_ row)).

(** A loader appends exactly two events per row of its query. *)
Definition loads_two_per_row {R} (query : Connection -> QueryResult R)
    (load : RocmSourceIterator -> Exc RocmSourceIterator)
    (start_event end_event : R -> RocmEventData) : Prop :=
  forall self rows,
    query (_conn self) = QueryRows rows ->
    exists self',
      load self = Return self' /\
      _current_events self'
      = _current_events self ++
        flat_map (fun row => [start_event row; end_event row]) rows /\
      length (_current_events self')
      = (length (_current_events self) + 2 * length rows)%nat.

(** A loader whose query fails returns normally and adds no event. *)
Definition failure_adds_nothing {R} (query : Connection -> QueryResult R)
    (load : RocmSourceIterator -> Exc RocmSourceIterator) : Prop :=
  forall self msg,
    query (_conn self) = QueryFails msg ->
    exists self',
      load self = Return self' /\
      _current_events self' = _current_events self.

(** What a loader does to the iterator, whatever its query gives. *)
Definition loader_effect {R} (query : Connection -> QueryResult R)
    (load : RocmSourceIterator -> Exc RocmSourceIterator)
    (start_event end_event : R -> RocmEventData) : Prop :=
  forall self,
    exists self',
      load self = Return self' /\
      _conn self' = _conn self /\
      _state self' = _state self /\
      _event_index self' = _event_index self /\
      _current_events self'
      = _current_events self ++
        family_events start_event end_event (query (_conn self)) /\
      _streams self' = _streams self /\
      _trace self' = _trace self.

(** Non-decreasing timestamps. *)
Definition by_timestamp (a b : RocmEventData) : Prop :=
  timestamp a <= timestamp b.

(** When the query of one family fails, the load still returns, with
    the sorted events of the other families. *)
Definition others_still_load {R} (query : Connection -> QueryResult R)
    (others : Connection -> list RocmEventData) : Prop :=
  forall self msg,
    query (_conn self) = QueryFails msg ->
    exists self',
      _load_events self = Return self' /\
      _current_events self' = sort_by_key timestamp (others (_conn self)).

(** ** Properties of the message sequence *)

(** Framing as the specification words it: every channel-begin is closed
    by the channel-end of the same channel before another channel
    begins, and every event lies between the two. *)
Fixpoint channel_framed (open : option Stream) (msgs : list Message) : bool :=
  match msgs with
  | [] => bool_decide (open = None)
  | StreamBeginningMessage s :: rest =>
      bool_decide (open = None) && channel_framed (Some s) rest
  | EventMsg m :: rest =>
      bool_decide (open = Some (event_stream m)) && channel_framed open rest
  | StreamEndMessage s :: rest =>
      bool_decide (open = Some s) && channel_framed None rest
  end.

Definition every_channel_bounded : Prop :=
  forall self,
    _state self = "stream_beginning" ->
    channel_framed None (messages self) = true.

(** Framing by switches: a channel-begin may follow the events of
    another channel directly; every event lies on the channel begun last;
    the only channel-end closes the channel begun last and is the last
    message. *)
Fixpoint switch_framed (open : option Stream) (msgs : list Message) : bool :=
  match msgs with
  | [] => bool_decide (open = None)
  | StreamBeginningMessage s :: rest => switch_framed (Some s) rest
  | EventMsg m :: rest =>
      bool_decide (open = Some (event_stream m)) && switch_framed open rest
  | StreamEndMessage s :: rest =>
      bool_decide (open = Some s) &&
      match rest with [] => true | _ :: _ => false end
  end.

Definition is_stream_end (m : Message) : bool :=
  match m with
  | StreamEndMessage _ => true
  | _ => false
  end.

(** The number of channel-end messages. *)
Definition count_stream_end (msgs : list Message) : nat :=
  length (List.filter is_stream_end msgs).

(** The event message [__next__] builds for an event. *)
Definition event_message_for (ec : EventClass) (stream : Stream)
    (event_data : RocmEventData) : EventMessage :=
  {| event_class := ec;
     event_stream := stream;
     default_clock_snapshot := timestamp event_data;
     payload_field :=
       set_event_fields (event_args event_data) (new_payload_field ec) |}.

(** The calls of [__next__] as a relation, one rule per path through
    its body; the two rules with a premise on the relation itself are
    the two calls the method makes to itself. *)
Inductive next_call
  : RocmSourceIterator -> Exc Message -> RocmSourceIterator -> Prop :=
| next_first_begin self first_event rest stream self1 :
    _state self = "stream_beginning" ->
    _current_events self = first_event :: rest ->
    _get_or_create_stream self first_event = (stream, self1) ->
    next_call self (Return (StreamBeginningMessage stream))
              (set_state (set_current_stream self1 (Some stream)) "events")
| next_no_events self :
    _state self = "stream_beginning" ->
    _current_events self = [] ->
    next_call self (Raise StopIteration) (set_state self "done")
| next_switch self event_data stream self1 :
    _state self = "events" ->
    _current_events self !! _event_index self = Some event_data ->
    _get_or_create_stream
      (set_event_index self (_event_index self + 1)) event_data
    = (stream, self1) ->
    Some stream <> _current_stream self1 ->
    next_call self (Return (StreamBeginningMessage stream))
              (set_current_stream self1 (Some stream))
| next_event self event_data stream self1 ec :
    _state self = "events" ->
    _current_events self !! _event_index self = Some event_data ->
    _get_or_create_stream
      (set_event_index self (_event_index self + 1)) event_data
    = (stream, self1) ->
    Some stream = _current_stream self1 ->
    lookup_event_class (_event_classes self1) event_data = Some ec ->
    next_call self (Return (EventMsg (event_message_for ec stream event_data)))
              self1
| next_skip self event_data stream self1 r self' :
    _state self = "events" ->
    _current_events self !! _event_index self = Some event_data ->
    _get_or_create_stream
      (set_event_index self (_event_index self + 1)) event_data
    = (stream, self1) ->
    Some stream = _current_stream self1 ->
    lookup_event_class (_event_classes self1) event_data = None ->
    next_call self1 r self' ->
    next_call self r self'
| next_exhausted self r self' :
    _state self = "events" ->
    _current_events self !! _event_index self = None ->
    next_call (set_state self "stream_end") r self' ->
    next_call self r self'
| next_end self stream :
    _state self = "stream_end" ->
    _current_stream self = Some stream ->
    next_call self (Return (StreamEndMessage stream))
              (set_state (set_current_stream self None) "done")
| next_end_nothing_open self :
    _state self = "stream_end" ->
    _current_stream self = None ->
    next_call self (Raise StopIteration) (set_state self "done")
| next_done self :
    _state self <> "stream_beginning" ->
    _state self <> "events" ->
    _state self <> "stream_end" ->
    next_call self (Raise StopIteration) self.

(** The nested calls [__next__] makes from a state: in the event state,
    one per remaining event, one for the exhausted cursor and one for
    the end; a single one elsewhere. *)
Definition calls_needed (self : RocmSourceIterator) : nat :=
  if String.eqb (_state self) "events"
  then (length (_current_events self) - _event_index self + 2)%nat
  else 1%nat.

(** What no call of the iterator changes: the loaded events and the
    classes received from the component. *)
Definition same_inputs (a b : RocmSourceIterator) : Prop :=
  _current_events b = _current_events a /\
  _event_classes b = _event_classes a /\
  _stream_classes b = _stream_classes a.

(** The streams registered in [a] are registered in [b], unchanged. *)
Definition streams_kept (a b : RocmSourceIterator) : Prop :=
  forall key stream,
    _streams a !! key = Some stream -> _streams b !! key = Some stream.

(** The stream the sample iterator creates at a given rank. *)
Definition sample_stream (rank : nat) : Stream :=
  {| stream_rank := rank;
     stream_class := default_stream_class (_create_stream_classes sample_clock) |}.

(** The clock snapshots of the event messages of a sequence. *)
Definition clock_snapshots (msgs : list Message) : list Z :=
  flat_map (fun m => match m with
                     | EventMsg e => [default_clock_snapshot e]
                     | _ => []
                     end) msgs.

(** The field names an event class declares. *)
Definition declared_fields (ec : EventClass) : gset string :=
  list_to_set (map fst (payload_field_class ec)).

(** The value a payload field ends with: the raw value when the raw
    payload has a non-null one under that name, else the default the
    field started with. *)
Definition populated (default_value : py_value) (raw : option py_value)
    : py_value :=
  match raw with
  | Some v => if decide (v = PyNone) then default_value else v
  | None => default_value
  end.

(** The sample iterator holding one kernel event, after its first call:
    the kernel channel is open and the cursor is on the event. *)
Definition sample_open_iterator : RocmSourceIterator :=
  (__next__ (sample_iterator [kernel_b])).2.

(** The registry of streams agrees with the trace: one created stream
    per registered key, and no stream registered under two keys. *)
Definition streams_consistent (self : RocmSourceIterator) : Prop :=
  length (created_streams (_trace self)) = size (_streams self) /\
  (forall key stream,
     _streams self !! key = Some stream ->
     (stream_rank stream < length (created_streams (_trace self)))%nat) /\
  (forall key1 key2 stream,
     _streams self !! key1 = Some stream ->
     _streams self !! key2 = Some stream ->
     key1 = key2).

(** Non-decreasing keys. *)
Definition key_ordered {A} (key : A -> Z) (a b : A) : Prop := key a <= key b.

(** A raw value fits a field when it is null (and is skipped) or has the
    type of the field. *)
Definition well_typed (v : py_value) (fc : field_class) : Prop :=
  match v, fc with
  | PyNone, _ => True
  | PyStr _, string_field_class => True
  | PyInt _, signed_integer_field_class _ => True
  | _, _ => False
  end.

(** Every raw value of the event fits the field of its name in every
    class of the component's table. *)
Definition args_fit_classes (event_data : RocmEventData) : Prop :=
  forall class_name ec key fc v,
    _create_event_classes !! class_name = Some ec ->
    (key, fc) ∈ payload_field_class ec ->
    arg key event_data = Some v ->
    well_typed v fc.

(** ** The message sequence as a function of the channel keys *)

(** What a message stands for: the begin or the end of the channel of a
    key, or an event with the class found for it. *)
Inductive Emission :=
| BeginOf (key : string)
| EventOf (event_data : RocmEventData) (ec : EventClass)
| EndOf (key : string).

(** What the iterator emits for the events from the cursor on, the
    channel of [open_key] being open.  An event of the open channel is
    emitted when its class is found and passed over when not; an event of
    another channel makes that channel begin and is itself passed over;
    past the last event the open channel ends. *)
Fixpoint emissions_from (event_classes : gmap string EventClass)
    (open_key : string) (events : list RocmEventData) : list Emission :=
  match events with
  | [] => [EndOf open_key]
  | event_data :: rest =>
      if decide (_get_channel_id event_data = open_key) then
        match lookup_event_class event_classes event_data with
        | Some ec =>
            EventOf event_data ec ::
            emissions_from event_classes open_key rest
        | None => emissions_from event_classes open_key rest
        end
      else
        BeginOf (_get_channel_id event_data) ::
        emissions_from event_classes (_get_channel_id event_data) rest
  end.

(** The whole sequence: nothing without events, else the channel of the
    first event begins and the events follow from the first one on. *)
Definition emissions (event_classes : gmap string EventClass)
    (events : list RocmEventData) : list Emission :=
  match events with
  | [] => []
  | first_event :: _ =>
      BeginOf (_get_channel_id first_event) ::
      emissions_from event_classes (_get_channel_id first_event) events
  end.

(** A message carries an emission when it is of its kind, on the stream
    registered for its key. *)
Definition carries (streams : gmap string Stream) (m : Message)
    (em : Emission) : Prop :=
  match m, em with
  | StreamBeginningMessage s, BeginOf key => streams !! key = Some s
  | EventMsg msg, EventOf event_data ec =>
      exists s,
        streams !! _get_channel_id event_data = Some s /\
        msg = event_message_for ec s event_data
  | StreamEndMessage s, EndOf key => streams !! key = Some s
  | _, _ => False
  end.

(** The event state with the channel of [key] open on stream [c]. *)
Definition channel_open (self : RocmSourceIterator) (key : string)
    (c : Stream) : Prop :=
  _state self = "events" /\
  _current_stream self = Some c /\
  _streams self !! key = Some c /\
  streams_consistent self.

(** The timestamps of the events a list of emissions holds. *)
Definition emission_snapshots (ems : list Emission) : list Z :=
  flat_map (fun em => match em with
                      | EventOf event_data _ => [timestamp event_data]
                      | _ => []
                      end) ems.

(** ** The execution context behind a channel key *)

(** The first available of thread, queue and stream, else the process
    (0 when it is absent or 0 itself). *)
Definition channel_context (event_data : RocmEventData) : string * Z :=
  match tid event_data with
  | Some t => ("thread", t)
  | None =>
    match queue_id event_data with
    | Some q => ("queue", q)
    | None =>
      match stream_id event_data with
      | Some s => ("stream", s)
      | None => ("default", or_int (pid event_data) 0)
      end
    end
  end.

(** ** Typed payloads *)

(** A value of the type of a field: a string in a string field, an
    integer in an integer field. *)
Definition has_type (v : py_value) (fc : field_class) : Prop :=
  match v, fc with
  | PyStr _, string_field_class => True
  | PyInt _, signed_integer_field_class _ => True
  | _, _ => False
  end.

(** Every field the class declares holds a value of its type. *)
Definition payload_typed (msg : EventMessage) : Prop :=
  forall key fc,
    (key, fc) ∈ payload_field_class (event_class msg) ->
    exists v, payload_field msg !! key = Some v /\ has_type v fc.

Definition message_typed (m : Message) : Prop :=
  match m with
  | EventMsg msg => payload_typed msg
  | _ => True
  end.

(** ** What the load prints and what it leaves alone *)

(** What the load does not touch: the path, the classes received from
    the component, the registry of channels and the open stream. *)
Definition same_setup (a b : RocmSourceIterator) : Prop :=
  _db_path b = _db_path a /\
  _stream_classes b = _stream_classes a /\
  _event_classes b = _event_classes a /\
  _clock_class b = _clock_class a /\
  _channels b = _channels a /\
  _current_stream b = _current_stream a.

(** The line a loader prints when its query fails. *)
Definition error_lines {R} (family : string) (q : QueryResult R)
    : list string :=
  match q with
  | QueryFails msg => ["Error loading " +:+ family +:+ " events: " +:+ msg]
  | QueryRows _ => []
  end.

(** A loader prints its error line, if any, and nothing else. *)
Definition loader_log {R} (query : Connection -> QueryResult R)
    (load : RocmSourceIterator -> Exc RocmSourceIterator)
    (family : string) : Prop :=
  forall self,
    exists self',
      load self = Return self' /\
      same_setup self self' /\
      stdout self' = stdout self ++ error_lines family (query (_conn self)).

(** Parameters naming a path. *)
Definition sample_params : gmap string bt_value :=
  {["db-path" := BtString "trace.db"]}.

(** The keys of the raw payload of an event. *)
Definition raw_keys (event_data : RocmEventData) : gset string :=
  match event_args event_data with
  | Some args => dom args
  | None => ∅
  end.

(** The event resolves to the class of the given name in the component's
    table, and that class declares every key of its raw payload. *)
Definition resolves_without_loss (event_data : RocmEventData)
    (class_name : string) (fields : list (string * field_class)) : Prop :=
  _get_event_class_name_by_category event_data = class_name /\
  lookup_event_class _create_event_classes event_data
  = Some (create_event_class class_name fields) /\
  raw_keys event_data ⊆ declared_fields (create_event_class class_name fields).

(** A region row of the most common kind: a HIP runtime call. *)
Definition sample_region_row : RegionRow :=
  {| r_start := 10; r_end := 25; r_nid := Some 1; r_pid := Some 7;
     r_tid := Some 3; r_region_name := "hipMalloc";
     r_category := "HIP_RUNTIME_API";
     r_process_name := "app"; r_thread_name := "main";
     r_extdata := None; r_correlation_id := Some 12;
     r_call_stack := None; r_line_info := None |}.

(** ** The identifier of the data set *)

(** [s.partition(sep)] for a separator of one character: the text before
    its first occurrence and the text after it, when it occurs. *)
Fixpoint partition_at (sep : ascii) (s : string) : option (string * string) :=
  match s with
  | EmptyString => None
  | String c r =>
      if Ascii.eqb c sep then Some (EmptyString, r)
      else match partition_at sep r with
           | Some (before, after) => Some (String c before, after)
           | None => None
           end
  end.

(** [s.split(sep, maxsplit)] for a separator of one character. *)
Fixpoint split_max (sep : ascii) (maxsplit : nat) (s : string) : list string :=
  match maxsplit with
  | O => [s]
  | S n =>
      match partition_at sep s with
      | Some (before, after) => before :: split_max sep n after
      | None => [s]
      end
  end.

Definition fallback_uuid : string := "0000b6ad_2bac_7bac_82e7_5f0563eafa7f".

(** [_get_db_metadata], given the outcome of its query for the names of
    the tables (one name per row, in the order of the result). *)
Definition _get_db_metadata (tables : QueryResult string)
    : Exc (string * string) :=
  match execute_fetchall tables with
  | Return (table_name :: _) =>
      let uuid := List.last (split_max "_" 2 table_name) EmptyString in
      Return (uuid, uuid)
  | Return [] => Return (fallback_uuid, fallback_uuid)
  | Raise (sqlite3_Error _) => Return (fallback_uuid, fallback_uuid)
  | Raise other => Raise other
  end.

(** The character does not occur in the text. *)
Definition free_of (sep : ascii) (s : string) : Prop :=
  forall before after, s <> before +:+ String sep after.

(** ** The analyzer ([rocm_analyzer.py]) *)

Module Analyzer.

(** A result and the lines printed on the way. *)
Definition Printed (A : Type) : Type := A * list string.

(** The connection of [RocmDataExtractor], seen through its queries,
    each failing with an [sqlite3.Error] (which every method catches) or
    giving its rows.  The region query depends on the category filter
    spliced into it ([None] when there is no filter). *)
Record Connection := {
  categories_query : QueryResult string;
  region_query : option string -> QueryResult RegionRow;
  kernel_dispatch_query : QueryResult KernelRow;
  memory_copy_query : QueryResult MemoryCopyRow;
  memory_allocation_query : QueryResult MemoryAllocationRow
}.

(** [get_categories] *)
Definition get_categories (conn : Connection) : list string :=
  match categories_query conn with
  | QueryRows rows => rows
  | QueryFails _ => []
  end.

Definition region_start_event (row : RegionRow) : RocmEventData :=
  {| name := r_region_name row +:+ "_start";
     timestamp := r_start row;
     duration := Some 0;
     category := Some (r_category row);
     pid := r_pid row;
     tid := r_tid row;
     agent_id := None; queue_id := None; stream_id := None;
     channel_id := None;
     event_args := Some (dict
       [("region_name", PyStr (r_region_name row));
        ("category", PyStr (r_category row));
        ("process_name", PyStr (r_process_name row));
        ("thread_name", PyStr (r_thread_name row));
        ("event_type", PyStr "region_start")]) |}.

Definition region_end_event (row : RegionRow) : RocmEventData :=
  let duration_ := r_end row - r_start row in
  {| name := r_region_name row +:+ "_end";
     timestamp := r_end row;
     duration := Some duration_;
     category := Some (r_category row);
     pid := r_pid row;
     tid := r_tid row;
     agent_id := None; queue_id := None; stream_id := None;
     channel_id := None;
     event_args := Some (dict
       [("region_name", PyStr (r_region_name row));
        ("category", PyStr (r_category row));
        ("event_type", PyStr "region_end")]) |}.

(** The row loop shared by the loaders: two events per row, appended to
    a list that starts empty. *)
Definition load_rows {R} (start_event end_event : R -> RocmEventData)
    (rows : list R) : list RocmEventData :=
  fold_left (fun events row => (events ++ [start_event row]) ++ [end_event row])
            rows [].

(** [_load_region_events]: a category that is given and not empty is
    spliced into the query as a filter. *)
Definition _load_region_events (conn : Connection) (category : option string)
    : Printed (list RocmEventData) :=
  let category_filter :=
    match category with
    | Some c => if String.eqb c "" then None else Some c
    | None => None
    end in
  match region_query conn category_filter with
  | QueryRows rows => (load_rows region_start_event region_end_event rows, [])
  | QueryFails e => ([], ["Error loading region events: " +:+ e])
  end.

Definition kernel_start_event (row : KernelRow) : RocmEventData :=
  let kernel_name := kernel_name_of row in
  {| name := "kernel_dispatch_start";
     timestamp := k_start row;
     duration := None;
     category := Some "KERNEL_DISPATCH";
     pid := k_pid row;
     tid := k_tid row;
     agent_id := k_agent_id row;
     queue_id := k_queue_id row;
     stream_id := k_stream_id row;
     channel_id := None;
     event_args := Some (dict
       [("kernel_name", PyStr kernel_name);
        ("dispatch_id", of_int (k_dispatch_id row));
        ("event_type", PyStr "kernel_dispatch_start")]) |}.

Definition kernel_end_event (row : KernelRow) : RocmEventData :=
  let kernel_name := kernel_name_of row in
  {| name := "kernel_dispatch_end";
     timestamp := k_end row;
     duration := Some (k_end row - k_start row);
     category := Some "KERNEL_DISPATCH";
     pid := k_pid row;
     tid := k_tid row;
     agent_id := k_agent_id row;
     queue_id := k_queue_id row;
     stream_id := k_stream_id row;
     channel_id := None;
     event_args := Some (dict
       [("kernel_name", PyStr kernel_name);
        ("event_type", PyStr "kernel_dispatch_end")]) |}.

Definition _load_kernel_dispatch_events (conn : Connection)
    : Printed (list RocmEventData) :=
  match kernel_dispatch_query conn with
  | QueryRows rows => (load_rows kernel_start_event kernel_end_event rows, [])
  | QueryFails e => ([], ["Error loading kernel dispatch events: " +:+ e])
  end.

Definition memory_copy_start_event (row : MemoryCopyRow) : RocmEventData :=
  {| name := "memory_copy_start";
     timestamp := c_start row;
     duration := None;
     category := Some "MEMORY_COPY";
     pid := c_pid row;
     tid := c_tid row;
     agent_id := None;
     queue_id := c_queue_id row;
     stream_id := c_stream_id row;
     channel_id := None;
     event_args := Some (dict
       [("copy_name", PyStr (c_name row));
        ("size", of_int (c_size row));
        ("event_type", PyStr "memory_copy_start")]) |}.

Definition memory_copy_end_event (row : MemoryCopyRow) : RocmEventData :=
  {| name := "memory_copy_end";
     timestamp := c_end row;
     duration := Some (c_end row - c_start row);
     category := Some "MEMORY_COPY";
     pid := c_pid row;
     tid := c_tid row;
     agent_id := None;
     queue_id := c_queue_id row;
     stream_id := c_stream_id row;
     channel_id := None;
     event_args := Some (dict
       [("copy_name", PyStr (c_name row));
        ("event_type", PyStr "memory_copy_end")]) |}.

Definition _load_memory_copy_events (conn : Connection)
    : Printed (list RocmEventData) :=
  match memory_copy_query conn with
  | QueryRows rows =>
      (load_rows memory_copy_start_event memory_copy_end_event rows, [])
  | QueryFails e => ([], ["Error loading memory copy events: " +:+ e])
  end.

Definition memory_allocation_start_event (row : MemoryAllocationRow)
    : RocmEventData :=
  {| name := "memory_allocation_start";
     timestamp := a_start row;
     duration := None;
     category := Some "MEMORY_ALLOCATION";
     pid := a_pid row;
     tid := a_tid row;
     agent_id := a_agent_id row;
     queue_id := None; stream_id := None;
     channel_id := None;
     event_args := Some (dict
       [("allocation_name", PyStr (a_name row));
        ("size", of_int (a_size row));
        ("event_type", PyStr "memory_allocation_start")]) |}.

Definition memory_allocation_end_event (row : MemoryAllocationRow)
    : RocmEventData :=
  {| name := "memory_allocation_end";
     timestamp := a_end row;
     duration := Some (a_end row - a_start row);
     category := Some "MEMORY_ALLOCATION";
     pid := a_pid row;
     tid := a_tid row;
     agent_id := a_agent_id row;
     queue_id := None; stream_id := None;
     channel_id := None;
     event_args := Some (dict
       [("allocation_name", PyStr (a_name row));
        ("event_type", PyStr "memory_allocation_end")]) |}.

(** [_load_memory_allocation_events]; the outcome of its queries (the
    look at the columns, then the selection) is one [QueryResult]. *)
Definition _load_memory_allocation_events (conn : Connection)
    : Printed (list RocmEventData) :=
  match memory_allocation_query conn with
  | QueryRows rows =>
      (load_rows memory_allocation_start_event memory_allocation_end_event
                 rows, [])
  | QueryFails e => ([], ["Error loading memory allocation events: " +:+ e])
  end.

(** [events.extend(loaded)], the printed lines following. *)
Definition extend (acc : Printed (list RocmEventData))
    (loaded : Printed (list RocmEventData)) : Printed (list RocmEventData) :=
  (acc.1 ++ loaded.1, acc.2 ++ loaded.2).

(** The categories [get_events_by_category] loads regions for. *)
Definition region_categories : list string :=
  ["HIP_RUNTIME_API_EXT"; "HIP_COMPILER_API_EXT"; "HSA_CORE_API";
   "HSA_AMD_EXT_API"; "MARKER_CORE_API"].

(** [get_events_by_category] *)
Definition get_events_by_category (conn : Connection)
    (category : option string) : Printed (list RocmEventData) :=
  let events : Printed (list RocmEventData) := ([], []) in
  let events :=
    if bool_decide (category = None \/ category = Some "all") then
      let events :=
        fold_left
          (fun events cat => extend events (_load_region_events conn (Some cat)))
          (get_categories conn) events in
      let events := extend events (_load_kernel_dispatch_events conn) in
      let events := extend events (_load_memory_copy_events conn) in
      extend events (_load_memory_allocation_events conn)
    else
      match category with
      | Some c =>
          if bool_decide (c ∈ region_categories) then
            extend events (_load_region_events conn (Some c))
          else if String.eqb c "KERNEL_DISPATCH" then
            extend events (_load_kernel_dispatch_events conn)
          else if String.eqb c "MEMORY_COPY" then
            extend events (_load_memory_copy_events conn)
          else if String.eqb c "MEMORY_ALLOCATION" then
            extend events (_load_memory_allocation_events conn)
          else events
      | None => events
      end in
  (sort_by_key timestamp events.1, events.2).

(** [get_channel_id] of the analyzer: no category in the key. *)
Definition get_channel_id (event_data : RocmEventData) : string :=
  match tid event_data with
  | Some t => "thread_" +:+ str_int t
  | None =>
    match queue_id event_data with
    | Some q => "queue_" +:+ str_int q
    | None =>
      match stream_id event_data with
      | Some s => "stream_" +:+ str_int s
      | None => "default_" +:+ str_int (or_int (pid event_data) 0)
      end
    end
  end.

(** One turn of the grouping loop of [analyze_streams_by_category]; the
    dictionary [channels] keeps its keys in the order of insertion. *)
Definition group_event (channels : list (string * list RocmEventData))
    (event : RocmEventData) : list (string * list RocmEventData) :=
  let channel_id := get_channel_id event in
  let channels :=
    if bool_decide (channel_id ∉ channels.*1)
    then channels ++ [(channel_id, [])]
    else channels in
  map (fun kv => if String.eqb (fst kv) channel_id
                 then (fst kv, snd kv ++ [event])
                 else kv)
      channels.

(** The grouping loop. *)
Definition group_by_channel (events : list RocmEventData)
    : list (string * list RocmEventData) :=
  fold_left group_event events [].

(** The channel keys of the events, each once, in the order of their
    first appearance. *)
Definition channels_in_order (events : list RocmEventData) : list string :=
  reverse (remove_dups (reverse (get_channel_id <$> events))).

End Analyzer.

(** A connection of the analyzer with one region of a HIP runtime call. *)
Definition sample_analyzer_connection : Analyzer.Connection :=
  {| Analyzer.categories_query := QueryRows ["HIP_RUNTIME_API"];
     Analyzer.region_query := fun _ => QueryRows [sample_region_row];
     Analyzer.kernel_dispatch_query := QueryRows [];
     Analyzer.memory_copy_query := QueryFails "no such table";
     Analyzer.memory_allocation_query := QueryRows [] |}.

(** The filter [_load_region_events] splices in for a category found in
    the database: none for the empty category. *)
Definition category_filter (cat : string) : option string :=
  if String.eqb cat "" then None else Some cat.

(** The events of the analyzer in the order it loads them when asked for
    every category: the regions of each category of the database in
    turn, then the other three families. *)
Definition analyzer_load_order (conn : Analyzer.Connection)
    : list RocmEventData :=
  flat_map
    (fun cat =>
       family_events Analyzer.region_start_event Analyzer.region_end_event
         (Analyzer.region_query conn (category_filter cat)))
    (Analyzer.get_categories conn) ++
  family_events Analyzer.kernel_start_event Analyzer.kernel_end_event
    (Analyzer.kernel_dispatch_query conn) ++
  family_events Analyzer.memory_copy_start_event
    Analyzer.memory_copy_end_event (Analyzer.memory_copy_query conn) ++
  family_events Analyzer.memory_allocation_start_event
    Analyzer.memory_allocation_end_event
    (Analyzer.memory_allocation_query conn).

(** The lines it prints on the way: one per failed query. *)
Definition analyzer_load_log (conn : Analyzer.Connection) : list string :=
  flat_map
    (fun cat =>
       error_lines "region" (Analyzer.region_query conn (category_filter cat)))
    (Analyzer.get_categories conn) ++
  error_lines "kernel dispatch" (Analyzer.kernel_dispatch_query conn) ++
  error_lines "memory copy" (Analyzer.memory_copy_query conn) ++
  error_lines "memory allocation" (Analyzer.memory_allocation_query conn).

(** The registry of channels goes with the registry of streams: the same
    keys, and under each key the description of an event of that key. *)
Definition channels_describe_streams (self : RocmSourceIterator) : Prop :=
  dom (_channels self) = dom (_streams self) /\
  forall key info,
    _channels self !! key = Some info ->
    ch_channel_id info = key /\
    exists event_data,
      _get_channel_id event_data = key /\
      ch_category info = category event_data /\
      ch_tid info = tid event_data /\
      ch_queue_id info = queue_id event_data /\
      ch_stream_id info = stream_id event_data.

(** * Theorems *)

(** ** Python idioms *)

Lemma or_str_present (x : option string) (d : string) :
  or_str x d = match x with
               | Some s => if String.eqb s "" then d else s
               | None => d
               end.
Proof. reflexivity. Qed.

Lemma prefix_spec (sub s : string) :
  String.prefix sub s = true <-> exists rest, s = sub +:+ rest.
Proof.
  revert s. induction sub as [|a sub IH]; intros s.
  - split; [intros _; exists s; reflexivity | intros _; now destruct s].
  - destruct s as [|b s]; simpl.
    + split; [discriminate | intros [rest H]; discriminate].
    + destruct (Ascii.ascii_dec a b) as [->|Hne].
      * rewrite IH. split; intros [rest H]; exists rest.
        -- now rewrite H.
        -- now injection H.
      * split; [discriminate | intros [rest H]; injection H; congruence].
Qed.

(** [str_in] is containment: [s] is some text, then [sub], then some
    more text. *)
Lemma str_in_spec (sub s : string) :
  str_in sub s = true <-> exists before after, s = before +:+ sub +:+ after.
Proof.
  induction s as [|c s IH]; cbn [str_in].
  - rewrite orb_false_r, prefix_spec. split.
    + intros [rest H]. exists "", rest. exact H.
    + intros [before [after H]]. destruct before; simpl in H.
      * exists after. exact H.
      * discriminate.
  - rewrite orb_true_iff, prefix_spec, IH. split.
    + intros [[rest H] | [before [after H]]].
      * exists "", rest. exact H.
      * exists (String c before), after. simpl. now rewrite H.
    + intros [before [after H]]. destruct before as [|b before]; simpl in H.
      * left. exists after. exact H.
      * right. exists before, after. now injection H.
Qed.

(** ** Channel classifier *)

(** C4, as stated, fails: an event whose category is present but empty
    gets the ["unknown"] prefix, not the empty one. *)
Lemma channel_key_empty_category_counterexample :
  ~ channel_key_as_specified.
Proof.
  intros H.
  specialize (H (sample_event "e" 0 (Some "") (Some 1) None)).
  vm_compute in H. discriminate H.
Qed.

(** C4 (amended): the channel key is a total function of the event that
    follows the priority thread, queue, stream, default-per-process, with
    the category replaced by ["unknown"] when it is absent or empty. *)
Theorem channel_key_priority (event_data : RocmEventData) :
  _get_channel_id event_data
  = channel_key_spec (present_category event_data) event_data.
Proof.
  unfold _get_channel_id, channel_key_spec, present_category, or_str, or_int.
  destruct (category event_data) as [c|]; [destruct (String.eqb c "")|];
    destruct (tid event_data), (queue_id event_data), (stream_id event_data),
      (pid event_data) as [p|]; try reflexivity;
    destruct (Z.eqb p 0); reflexivity.
Qed.

(** ** Event class resolution *)





(** ** Construction of the source component *)

(** C3, as stated, fails: without the parameter the component falls back
    to its default path and, when that file exists, is built. *)
Lemma missing_path_counterexample :
  ~ missing_path_is_configuration_error.
Proof.
  intros H.
  destruct (H (fun p => String.eqb p "24228_results.db") ∅ (lookup_empty _))
    as [msg Hmsg].
  vm_compute in Hmsg. discriminate Hmsg.
Qed.

Lemma chosen_db_path_missing (params : gmap string bt_value) :
  params !! "db-path" = None -> chosen_db_path params = "24228_results.db".
Proof. intros H. unfold chosen_db_path. now rewrite H. Qed.

(** C3 (amended): a missing source-path parameter stands for the default
    path ["24228_results.db"]; an empty path raises the configuration
    error and a non-empty path that does not exist raises the not-found
    error.  Either error is the outcome of the construction, so the run
    of the source ends with it and produces no message. *)
Theorem construction_rejects_bad_path (exists_ : string -> bool)
    (connect : string -> Connection) (params : gmap string bt_value) :
  (params !! "db-path" = None ->
   chosen_db_path params = "24228_results.db") /\
  (chosen_db_path params = "" ->
   exists msg,
     RocmSource__init__ exists_ params = Raise (ValueError msg) /\
     run_source exists_ connect params = Raise (ValueError msg)) /\
  (chosen_db_path params <> "" ->
   exists_ (chosen_db_path params) = false ->
   exists msg,
     RocmSource__init__ exists_ params = Raise (FileNotFoundError msg) /\
     run_source exists_ connect params = Raise (FileNotFoundError msg)).
Proof.
  split; [apply chosen_db_path_missing|].
  unfold run_source, RocmSource__init__. fold (chosen_db_path params).
  split.
  - intros ->. simpl. eexists; split; reflexivity.
  - intros Hne Hex.
    destruct (String.eqb_spec (chosen_db_path params) ""); [contradiction|].
    rewrite Hex. simpl. eexists; split; reflexivity.
Qed.

Lemma construction_rejects_bad_path_witness :
  (exists msg,
     run_source (fun _ => true) (fun _ => sample_connection)
                {["db-path" := BtString ""]} = Raise (ValueError msg)) /\
  (exists msg,
     run_source (fun _ => false) (fun _ => sample_connection) ∅
     = Raise (FileNotFoundError msg)).
Proof.
  split.
  - destruct (construction_rejects_bad_path (fun _ => true)
                (fun _ => sample_connection) {["db-path" := BtString ""]})
      as (_ & H & _).
    destruct H as (msg & _ & Hrun); [vm_compute; reflexivity|].
    exists msg. exact Hrun.
  - destruct (construction_rejects_bad_path (fun _ => false)
                (fun _ => sample_connection) ∅)
      as (Hd & _ & H).
    destruct H as (msg & _ & Hrun).
    + rewrite (Hd (lookup_empty _)). discriminate.
    + reflexivity.
    + exists msg. exact Hrun.
Defined.

(** ** Record loader *)

Section LoadLoop.
Context {R : Type} (start_event end_event : R -> RocmEventData).

Local Abbreviation body :=
  (fun (self : RocmSourceIterator) (row : R) =>
     append_event (append_event self (start_event row)) (end_event row)).

(** The row loop of a loader: two appended events per row, nothing
    else of the iterator touched. *)
Lemma load_loop_events (rows : list R) (self : RocmSourceIterator) :
  _current_events (fold_left body rows self)
  = _current_events self ++
    flat_map (fun row => [start_event row; end_event row]) rows.
Proof.
  revert self. induction rows as [|row rows IH]; intros self; simpl.
  - now rewrite app_nil_r.
  - rewrite IH. simpl. now rewrite <- !app_assoc.
Qed.

Lemma load_loop_frame (rows : list R) (self : RocmSourceIterator) :
  _conn (fold_left body rows self) = _conn self /\
  _state (fold_left body rows self) = _state self /\
  _event_index (fold_left body rows self) = _event_index self /\
  _streams (fold_left body rows self) = _streams self /\
  _trace (fold_left body rows self) = _trace self.
Proof.
  revert self. induction rows as [|row rows IH]; intros self; simpl.
  - auto.
  - destruct (IH (body self row)) as (-> & -> & -> & -> & ->).
    repeat split.
Qed.

Lemma flat_map_pairs_length (rows : list R) :
  length (flat_map (fun row => [start_event row; end_event row]) rows)
  = (2 * length rows)%nat.
Proof. induction rows as [|row rows IH]; simpl; [reflexivity | lia]. Qed.
End LoadLoop.

Ltac loader_effect_tac start_event end_event :=
  let self := fresh "self" in
  let msg := fresh "msg" in
  let rows := fresh "rows" in
  intros self;
  match goal with
  | |- exists _, ?load self = _ /\ _ =>
      unfold load, execute_fetchall, family_events
  end;
  match goal with
  | |- context [match ?q with QueryFails _ => _ | QueryRows _ => _ end] =>
      destruct q as [msg|rows]
  end;
  eexists; (split; [reflexivity|]);
  [ simpl; rewrite app_nil_r; repeat split
  | destruct (load_loop_frame start_event end_event rows self)
      as (-> & -> & -> & -> & ->);
    rewrite (load_loop_events start_event end_event); repeat split ].

Lemma region_loader_effect :
  loader_effect region_query _load_region_events
                region_start_event region_end_event.
Proof. loader_effect_tac region_start_event region_end_event. Qed.

Lemma kernel_loader_effect :
  loader_effect kernel_dispatch_query _load_kernel_dispatch_events
                kernel_start_event kernel_end_event.
Proof. loader_effect_tac kernel_start_event kernel_end_event. Qed.

Lemma memory_copy_loader_effect :
  loader_effect memory_copy_query _load_memory_copy_events
                memory_copy_start_event memory_copy_end_event.
Proof.
  loader_effect_tac memory_copy_start_event memory_copy_end_event.
Qed.

Lemma memory_allocation_loader_effect :
  loader_effect memory_allocation_query _load_memory_allocation_events
                memory_allocation_start_event memory_allocation_end_event.
Proof.
  loader_effect_tac memory_allocation_start_event
                    memory_allocation_end_event.
Qed.

Lemma loader_effect_two_per_row {R} query load
    (start_event end_event : R -> RocmEventData) :
  loader_effect query load start_event end_event ->
  loads_two_per_row query load start_event end_event.
Proof.
  intros H self rows Hq. destruct (H self) as (self' & Hl & _ & _ & _ & He & _).
  exists self'. rewrite Hq in He. simpl in He.
  split; [exact Hl|]. split; [exact He|].
  rewrite He, length_app, flat_map_pairs_length. reflexivity.
Qed.

Lemma loader_effect_failure {R} query load
    (start_event end_event : R -> RocmEventData) :
  loader_effect query load start_event end_event ->
  failure_adds_nothing query load.
Proof.
  intros H self msg Hq. destruct (H self) as (self' & Hl & _ & _ & _ & He & _).
  exists self'. rewrite Hq in He. simpl in He. rewrite app_nil_r in He.
  now split.
Qed.

Ltac paired_events_tac :=
  intros row; unfold same_channel_context, arg;
  repeat split; vm_compute; reflexivity.

Lemma region_events_paired :
  paired_events r_start r_end region_start_event region_end_event.
Proof. paired_events_tac. Qed.

Lemma kernel_events_paired :
  paired_events k_start k_end kernel_start_event kernel_end_event.
Proof. paired_events_tac. Qed.

Lemma memory_copy_events_paired :
  paired_events c_start c_end memory_copy_start_event memory_copy_end_event.
Proof. paired_events_tac. Qed.

Lemma memory_allocation_events_paired :
  paired_events a_start a_end
                memory_allocation_start_event memory_allocation_end_event.
Proof. paired_events_tac. Qed.

(** C5: for each of the four record families, a query that matches
    [rows] makes the loader append exactly one start and one end event
    per row, in row order, so that the family contributes
    [2 * length rows] events; the two events of a row have the same
    context fields (hence the same channel key), carry the row's start and
    end timestamps, and hold duration 0 and [end - start]. *)
Theorem two_events_per_row :
  (paired_events r_start r_end region_start_event region_end_event /\
   loads_two_per_row region_query _load_region_events
                     region_start_event region_end_event) /\
  (paired_events k_start k_end kernel_start_event kernel_end_event /\
   loads_two_per_row kernel_dispatch_query _load_kernel_dispatch_events
                     kernel_start_event kernel_end_event) /\
  (paired_events c_start c_end
                 memory_copy_start_event memory_copy_end_event /\
   loads_two_per_row memory_copy_query _load_memory_copy_events
                     memory_copy_start_event memory_copy_end_event) /\
  (paired_events a_start a_end
                 memory_allocation_start_event memory_allocation_end_event /\
   loads_two_per_row memory_allocation_query _load_memory_allocation_events
                     memory_allocation_start_event
                     memory_allocation_end_event).
Proof.
  repeat split;
    first [ apply region_events_paired | apply kernel_events_paired
          | apply memory_copy_events_paired
          | apply memory_allocation_events_paired
          | eapply loader_effect_two_per_row;
            first [ apply region_loader_effect | apply kernel_loader_effect
                  | apply memory_copy_loader_effect
                  | apply memory_allocation_loader_effect ] ].
Qed.

Lemma two_events_per_row_witness :
  exists self',
    _load_kernel_dispatch_events (sample_iterator [region_a])
    = Return self' /\
    length (_current_events self') = 3%nat.
Proof.
  destruct two_events_per_row as (_ & (_ & H) & _).
  destruct (H (sample_iterator [region_a]) _ eq_refl)
    as (self' & Hload & _ & Hlen).
  exists self'. split; [exact Hload | exact Hlen].
Defined.

(** ** The sort of the loaded events *)

Section Sorting.
Context {A : Type} (key : A -> Z).

Lemma insert_by_key_perm (x : A) (l : list A) :
  insert_by_key key x l ≡ₚ x :: l.
Proof.
  induction l as [|y l IH]; simpl; [reflexivity|].
  destruct (Z.leb (key x) (key y)); [reflexivity|].
  rewrite IH. apply Permutation_swap.
Qed.

Lemma sort_by_key_perm (l : list A) : sort_by_key key l ≡ₚ l.
Proof.
  induction l as [|x l IH]; simpl; [reflexivity|].
  now rewrite insert_by_key_perm, IH.
Qed.

Local Abbreviation key_le := (key_ordered key).

Lemma insert_by_key_sorted (x : A) (l : list A) :
  StronglySorted key_le l -> StronglySorted key_le (insert_by_key key x l).
Proof.
  induction 1 as [|y l Hs IH Hall]; simpl.
  - repeat constructor.
  - destruct (Z.leb_spec (key x) (key y)) as [Hle|Hlt].
    + constructor; [now constructor|].
      constructor; [exact Hle|].
      eapply Forall_impl; [exact Hall|].
      intros z Hz. unfold key_ordered in *. lia.
    + constructor; [exact IH|].
      rewrite insert_by_key_perm. constructor; [|exact Hall].
      unfold key_le. lia.
Qed.

Lemma sort_by_key_sorted (l : list A) :
  StronglySorted key_le (sort_by_key key l).
Proof.
  induction l as [|x l IH]; simpl; [constructor|].
  now apply insert_by_key_sorted.
Qed.

(** Stability: the elements of one key keep their relative order. *)
Lemma insert_by_key_stable (t : Z) (x : A) (l : list A) :
  filter (fun y => key y = t) (insert_by_key key x l)
  = filter (fun y => key y = t) (x :: l).
Proof.
  induction l as [|y l IH]; simpl; [reflexivity|].
  destruct (Z.leb_spec (key x) (key y)) as [Hle|Hlt]; [reflexivity|].
  rewrite filter_cons, IH, !filter_cons.
  destruct (decide (key y = t)), (decide (key x = t));
    try reflexivity; lia.
Qed.

Lemma sort_by_key_stable (t : Z) (l : list A) :
  filter (fun y => key y = t) (sort_by_key key l)
  = filter (fun y => key y = t) l.
Proof.
  induction l as [|x l IH]; simpl; [reflexivity|].
  now rewrite insert_by_key_stable, !filter_cons, IH.
Qed.
(** Two sorted lists with the same elements of each key, in the same
    order, are equal: a stable sort has one possible result. *)
Lemma stable_sorted_unique (l1 l2 : list A) :
  StronglySorted key_le l1 -> StronglySorted key_le l2 ->
  (forall t, filter (fun y => key y = t) l1
             = filter (fun y => key y = t) l2) ->
  l1 = l2.
Proof.
  intros H1. revert l2.
  induction H1 as [|x l1 Hs1 IH Hall1]; intros l2 H2 Hf.
  - destruct l2 as [|y l2]; [reflexivity|].
    specialize (Hf (key y)). rewrite filter_cons_True in Hf by reflexivity.
    discriminate Hf.
  - destruct H2 as [|y l2 Hs2 Hall2].
    { specialize (Hf (key x)).
      rewrite filter_cons_True in Hf by reflexivity. discriminate Hf. }
    assert (Hxy : x = y).
    { destruct (decide (key y = key x)) as [Hk|Hk].
      - specialize (Hf (key x)).
        rewrite !filter_cons_True in Hf by auto. now injection Hf.
      - exfalso.
        pose proof (Hf (key x)) as Hx.
        rewrite filter_cons_True, filter_cons_False in Hx by auto.
        assert (Hin : x ∈ l2).
        { eapply (list_elem_of_filter (fun z => key z = key x)).
          rewrite <- Hx. apply list_elem_of_here. }
        pose proof (Hf (key y)) as Hy.
        rewrite filter_cons_False, filter_cons_True in Hy by auto.
        assert (Hin' : y ∈ l1).
        { eapply (list_elem_of_filter (fun z => key z = key y)).
          rewrite Hy. apply list_elem_of_here. }
        rewrite Forall_forall in Hall1, Hall2.
        apply Hall1 in Hin'. apply Hall2 in Hin.
        unfold key_ordered in *. lia. }
    subst y. f_equal. apply IH; [exact Hs2|].
    intros t. specialize (Hf t). rewrite !filter_cons in Hf.
    destruct (decide (key x = t)); [now injection Hf | exact Hf].
Qed.

(** Whatever stable sorting algorithm the interpreter runs, its result
    is the one of [sort_by_key]. *)
Lemma sort_by_key_unique (l sorted : list A) :
  StronglySorted key_le sorted ->
  (forall t, filter (fun y => key y = t) sorted
             = filter (fun y => key y = t) l) ->
  sorted = sort_by_key key l.
Proof.
  intros Hs Hf. apply stable_sorted_unique.
  - exact Hs.
  - apply sort_by_key_sorted.
  - intros t. now rewrite Hf, sort_by_key_stable.
Qed.
End Sorting.

(** ** The complete load *)

Lemma load_events_returns (self : RocmSourceIterator) :
  exists self',
    _load_events self = Return self' /\
    _conn self' = _conn self /\
    _state self' = _state self /\
    _event_index self' = _event_index self /\
    _current_events self'
    = sort_by_key timestamp (events_in_load_order (_conn self)) /\
    _streams self' = _streams self /\
    _trace self' = _trace self.
Proof.
  unfold _load_events, events_in_load_order.
  destruct (region_loader_effect (set_current_events self []))
    as (s1 & -> & Hc1 & Hs1 & Hi1 & He1 & Hm1 & Ht1).
  destruct (kernel_loader_effect s1)
    as (s2 & H2 & Hc2 & Hs2 & Hi2 & He2 & Hm2 & Ht2).
  destruct (memory_copy_loader_effect s2)
    as (s3 & H3 & Hc3 & Hs3 & Hi3 & He3 & Hm3 & Ht3).
  destruct (memory_allocation_loader_effect s3)
    as (s4 & H4 & Hc4 & Hs4 & Hi4 & He4 & Hm4 & Ht4).
  simpl. rewrite H2. simpl. rewrite H3. simpl. rewrite H4. simpl.
  eexists. split; [reflexivity|]. simpl in *.
  rewrite He4, He3, He2, He1, Hc4, Hc3, Hc2, Hc1, Hs4, Hs3, Hs2, Hs1,
    Hi4, Hi3, Hi2, Hi1, Hm4, Hm3, Hm2, Hm1, Ht4, Ht3, Ht2, Ht1.
  simpl. rewrite <- !app_assoc. repeat split; reflexivity.
Qed.

(** C6: the load returns one list, sorted by non-decreasing timestamp; it
    holds exactly the events of the four families, and events of equal
    timestamp stay in family order, then row order.  The list depends on
    the source alone, so a second load of the same source gives the same
    list. *)
Theorem loaded_events_sorted_stable (self : RocmSourceIterator) :
  exists self',
    _load_events self = Return self' /\
    StronglySorted by_timestamp (_current_events self') /\
    _current_events self' ≡ₚ events_in_load_order (_conn self) /\
    (forall t,
       filter (fun e => timestamp e = t) (_current_events self')
       = filter (fun e => timestamp e = t)
                (events_in_load_order (_conn self))) /\
    (forall other,
       _conn other = _conn self ->
       exists other',
         _load_events other = Return other' /\
         _current_events other' = _current_events self').
Proof.
  destruct (load_events_returns self) as (self' & Hl & _ & _ & _ & He & _).
  exists self'. split; [exact Hl|]. rewrite He.
  split; [apply (sort_by_key_sorted timestamp)|].
  split; [apply sort_by_key_perm|].
  split; [intros t; apply (sort_by_key_stable timestamp)|].
  intros other Hconn.
  destruct (load_events_returns other) as (other' & Hl' & _ & _ & _ & He' & _).
  exists other'. split; [exact Hl'|]. now rewrite He', Hconn.
Qed.

Lemma loaded_events_sorted_stable_witness :
  exists self',
    _load_events (sample_iterator [region_a; kernel_b]) = Return self' /\
    map timestamp (_current_events self') = [1000; 1005; 1500; 3500].
Proof.
  destruct (loaded_events_sorted_stable (sample_iterator []))
    as (self' & Hl & _ & _ & _ & Hsame).
  destruct (Hsame (sample_iterator [region_a; kernel_b]) eq_refl)
    as (other' & Hl' & He').
  exists other'. split; [exact Hl'|].
  rewrite He'. vm_compute in Hl.
  injection Hl as <-. reflexivity.
Defined.

(** C7: for each of the four record families, a failing query is caught
    by the loader of that family, which returns normally and adds no
    event; the load as a whole returns normally too, and its result is
    the sorted list of all the events of the other families. *)
Theorem failed_family_contributes_nothing :
  (failure_adds_nothing region_query _load_region_events /\
   others_still_load region_query (fun conn =>
     family_events kernel_start_event kernel_end_event
       (kernel_dispatch_query conn) ++
     family_events memory_copy_start_event memory_copy_end_event
       (memory_copy_query conn) ++
     family_events memory_allocation_start_event
       memory_allocation_end_event (memory_allocation_query conn))) /\
  (failure_adds_nothing kernel_dispatch_query _load_kernel_dispatch_events /\
   others_still_load kernel_dispatch_query (fun conn =>
     family_events region_start_event region_end_event
       (region_query conn) ++
     family_events memory_copy_start_event memory_copy_end_event
       (memory_copy_query conn) ++
     family_events memory_allocation_start_event
       memory_allocation_end_event (memory_allocation_query conn))) /\
  (failure_adds_nothing memory_copy_query _load_memory_copy_events /\
   others_still_load memory_copy_query (fun conn =>
     family_events region_start_event region_end_event
       (region_query conn) ++
     family_events kernel_start_event kernel_end_event
       (kernel_dispatch_query conn) ++
     family_events memory_allocation_start_event
       memory_allocation_end_event (memory_allocation_query conn))) /\
  (failure_adds_nothing memory_allocation_query
                        _load_memory_allocation_events /\
   others_still_load memory_allocation_query (fun conn =>
     family_events region_start_event region_end_event
       (region_query conn) ++
     family_events kernel_start_event kernel_end_event
       (kernel_dispatch_query conn) ++
     family_events memory_copy_start_event memory_copy_end_event
       (memory_copy_query conn))).
Proof.
  repeat split;
    try (eapply loader_effect_failure;
         first [ apply region_loader_effect | apply kernel_loader_effect
               | apply memory_copy_loader_effect
               | apply memory_allocation_loader_effect ]);
    intros self msg Hq;
    destruct (load_events_returns self)
      as (self' & Hl & _ & _ & _ & He & _);
    exists self'; (split; [exact Hl|]);
    rewrite He; unfold events_in_load_order; rewrite Hq; simpl;
    rewrite ?app_nil_r; reflexivity.
Qed.

Lemma failed_family_contributes_nothing_witness :
  exists self',
    _load_events (sample_iterator []) = Return self' /\
    map name (_current_events self')
    = ["main_region_start"; "main_region_end";
       "kernel_dispatch_start"; "kernel_dispatch_end"].
Proof.
  destruct failed_family_contributes_nothing as (_ & _ & (_ & H) & _).
  destruct (H (sample_iterator []) _ eq_refl) as (self' & Hl & He).
  exists self'. split; [exact Hl|]. rewrite He. reflexivity.
Defined.

(** ** Stream multiplexer *)

Lemma same_inputs_refl self : same_inputs self self.
Proof. repeat split. Qed.

Lemma same_inputs_trans a b c :
  same_inputs a b -> same_inputs b c -> same_inputs a c.
Proof.
  intros (H1 & H2 & H3) (H4 & H5 & H6).
  repeat split; congruence.
Qed.

Lemma streams_kept_refl self : streams_kept self self.
Proof. intros key stream H. exact H. Qed.

Lemma streams_kept_trans a b c :
  streams_kept a b -> streams_kept b c -> streams_kept a c.
Proof. intros H1 H2 key stream H. apply H2, H1, H. Qed.

(** [_get_or_create_stream] returns the stream registered for the
    event's channel key, creating and registering one only when the key
    has none; nothing else of the iterator changes. *)
Lemma get_or_create_stream_spec self event_data stream self1 :
  _get_or_create_stream self event_data = (stream, self1) ->
  same_inputs self self1 /\
  streams_kept self self1 /\
  _state self1 = _state self /\
  _event_index self1 = _event_index self /\
  _current_stream self1 = _current_stream self /\
  _streams self1 !! _get_channel_id event_data = Some stream /\
  (forall known,
     _streams self !! _get_channel_id event_data = Some known ->
     known = stream /\ self1 = self).
Proof.
  unfold _get_or_create_stream.
  destruct (_streams self !! _get_channel_id event_data) as [known|] eqn:Hk.
  - intros [= <- <-].
    repeat split; auto using streams_kept_refl. all: congruence.
  - unfold create_stream, same_inputs, streams_kept.
    intros [= <- <-]. simpl.
    repeat split.
    + intros key other Hs. rewrite lookup_insert_ne; [exact Hs|].
      intros <-. congruence.
    + apply lookup_insert_eq.
    + discriminate.
    + discriminate.
Qed.

Lemma calls_needed_le_depth_needed self :
  (calls_needed self <= depth_needed self)%nat.
Proof.
  unfold calls_needed, depth_needed.
  destruct (String.eqb (_state self) "events"); lia.
Qed.

(** With enough depth, [next_at_depth] follows the rules of [next_call]:
    in particular it does not run out of depth. *)
Lemma next_at_depth_call depth self :
  (calls_needed self <= depth)%nat ->
  next_call self (next_at_depth depth self).1 (next_at_depth depth self).2.
Proof.
  revert self. induction depth as [|depth IH]; intros self Hd.
  { unfold calls_needed in Hd.
    destruct (String.eqb (_state self) "events"); lia. }
  cbn [next_at_depth].
  destruct (String.eqb_spec (_state self) "stream_beginning") as [Hb|Hb].
  { destruct (_current_events self) as [|first_event rest] eqn:He.
    - now apply next_no_events.
    - destruct (_get_or_create_stream self first_event)
        as [stream self1] eqn:Hg.
      eapply next_first_begin; eassumption. }
  destruct (String.eqb_spec (_state self) "events") as [Hev|Hev].
  { unfold calls_needed in Hd. rewrite Hev in Hd. simpl in Hd.
    destruct (_current_events self !! _event_index self)
      as [event_data|] eqn:Hl.
    - destruct (_get_or_create_stream
                  (set_event_index self (_event_index self + 1)) event_data)
        as [stream self1] eqn:Hg.
      destruct (get_or_create_stream_spec _ _ _ _ Hg)
        as ((He1 & _) & _ & Hs1 & Hi1 & _).
      case_bool_decide as Hsw.
      + eapply next_switch; eassumption.
      + assert (Hcur : Some stream = _current_stream self1).
        { destruct (decide (Some stream = _current_stream self1)); tauto. }
        destruct (lookup_event_class (_event_classes self1) event_data)
          as [ec|] eqn:Hc.
        * eapply next_event; eassumption.
        * eapply next_skip; try eassumption.
          apply IH. apply lookup_lt_Some in Hl.
          unfold calls_needed. rewrite Hs1, He1, Hi1. simpl.
          rewrite Hev. simpl. lia.
    - eapply next_exhausted; try eassumption.
      apply IH. unfold calls_needed. simpl. lia. }
  destruct (String.eqb_spec (_state self) "stream_end") as [Hen|Hen].
  { destruct (_current_stream self) as [stream|] eqn:Hc.
    - now apply next_end.
    - now apply next_end_nothing_open. }
  now apply next_done.
Qed.

(** [__next__] follows the rules of [next_call]. *)
Lemma next_call_next self :
  next_call self (__next__ self).1 (__next__ self).2.
Proof. apply next_at_depth_call, calls_needed_le_depth_needed. Qed.

(** No call changes the inputs, forgets a registered stream, or moves
    the cursor back. *)
Lemma next_call_frame self r self' :
  next_call self r self' ->
  same_inputs self self' /\ streams_kept self self' /\
  (_event_index self <= _event_index self')%nat.
Proof.
  induction 1 as
    [ self first_event rest stream self1 Hs He Hg
    | self Hs He
    | self event_data stream self1 Hs Hl Hg Hne
    | self event_data stream self1 ec Hs Hl Hg Heq Hc
    | self event_data stream self1 r self' Hs Hl Hg Heq Hc Hn IH
    | self r self' Hs Hl Hn IH
    | self stream Hs Hc
    | self Hs Hc
    | self H1 H2 H3 ];
    try (destruct (get_or_create_stream_spec _ _ _ _ Hg)
           as (Hin & Hk & _ & Hi & _); simpl in Hi);
    try destruct IH as (IHin & IHk & IHi).
  - repeat split; try apply Hin; [exact Hk | simpl; lia].
  - repeat split; [intros k s0 Hk; exact Hk | simpl; lia].
  - repeat split; try apply Hin; [exact Hk | simpl; lia].
  - repeat split; try apply Hin; [exact Hk | lia].
  - split; [|split].
    + eapply same_inputs_trans; [|exact IHin]. exact Hin.
    + eapply streams_kept_trans; [|exact IHk]. exact Hk.
    + lia.
  - split; [|split]; [exact IHin | exact IHk | exact IHi].
  - repeat split; [intros k s0 Hk; exact Hk | simpl; lia].
  - repeat split; [intros k s0 Hk; exact Hk | simpl; lia].
  - repeat split; [apply streams_kept_refl | lia].
Qed.

(** A call made in the end state closes the open channel. *)
Lemma next_call_stream_end self r self' :
  next_call self r self' ->
  _state self = "stream_end" ->
  forall c, _current_stream self = Some c ->
  r = Return (StreamEndMessage c) /\ _state self' = "done".
Proof.
  intros Hn Hs c Hc.
  inversion Hn; subst; try congruence.
  split; [congruence | reflexivity].
Qed.

(** A call made once the stream is over raises [StopIteration] and
    leaves the iterator as it is. *)
Lemma next_call_done self r self' :
  next_call self r self' ->
  _state self = "done" ->
  r = Raise StopIteration /\ self' = self.
Proof.
  intros Hn Hs.
  inversion Hn; subst; try congruence; auto.
Qed.

(** A call made in the event state, channel [c] being open: it begins
    another channel, or emits an event on [c], or ends [c]; in the first
    two cases the cursor has moved on. *)
Lemma next_call_events self r self' :
  next_call self r self' ->
  _state self = "events" ->
  forall c, _current_stream self = Some c ->
  (exists s,
     r = Return (StreamBeginningMessage s) /\ s <> c /\
     _state self' = "events" /\ _current_stream self' = Some s /\
     (_event_index self < _event_index self'
      <= length (_current_events self))%nat) \/
  (exists m,
     r = Return (EventMsg m) /\ event_stream m = c /\
     _state self' = "events" /\ _current_stream self' = Some c /\
     (_event_index self < _event_index self'
      <= length (_current_events self))%nat) \/
  (r = Return (StreamEndMessage c) /\ _state self' = "done").
Proof.
  induction 1 as
    [ self first_event rest stream self1 Hs He Hg
    | self Hs He
    | self event_data stream self1 Hs Hl Hg Hne
    | self event_data stream self1 ec Hs Hl Hg Heq Hc
    | self event_data stream self1 r self' Hs Hl Hg Heq Hc Hn IH
    | self r self' Hs Hl Hn IH
    | self stream Hs Hc
    | self Hs Hc
    | self H1 H2 H3 ];
    intros Hst c Hcur; try congruence;
    try (destruct (get_or_create_stream_spec _ _ _ _ Hg)
           as ((He1 & _) & _ & Hs1 & Hi1 & Hc1 & _);
         simpl in Hs1, Hi1, Hc1, He1;
         pose proof (lookup_lt_Some _ _ _ Hl) as Hlt).
  - left. exists stream. simpl. rewrite Hs1, Hi1.
    repeat split; try assumption; try lia.
    intros ->. apply Hne. now rewrite Hc1.
  - right; left. eexists. split; [reflexivity|]. simpl.
    rewrite Hs1, Hi1, Hc1.
    repeat split; try assumption; try lia.
    rewrite Hc1, Hcur in Heq. now injection Heq.
  - destruct (IH ltac:(congruence) c ltac:(congruence))
      as [(s & -> & Hsc & Hs' & Hc' & Hi')
         |[(m & -> & Hm & Hs' & Hc' & Hi') | (-> & Hs')]].
    + left. exists s. rewrite Hi1, He1 in Hi'.
      repeat split; try assumption; lia.
    + right; left. exists m. rewrite Hi1, He1 in Hi'.
      repeat split; try assumption; lia.
    + right; right. now split.
  - right; right.
    eapply next_call_stream_end; [exact Hn | reflexivity | exact Hcur].
Qed.

(** The first call: nothing to emit when no event was loaded, else the
    channel of the first event begins and the cursor stays put. *)
Lemma next_call_beginning self r self' :
  next_call self r self' ->
  _state self = "stream_beginning" ->
  (_current_events self = [] /\ r = Raise StopIteration) \/
  (exists s,
     _current_events self <> [] /\
     r = Return (StreamBeginningMessage s) /\
     _state self' = "events" /\ _current_stream self' = Some s /\
     _event_index self' = _event_index self /\
     _current_events self' = _current_events self).
Proof.
  intros Hn Hs. inversion Hn; subst; try congruence.
  - right. exists stream.
    destruct (get_or_create_stream_spec _ _ _ _ H1)
      as ((He1 & _) & _ & _ & Hi1 & _).
    simpl. repeat split; try assumption. congruence.
  - left. now split.
Qed.

Lemma pull_unfold n self :
  pull (S n) self
  = match __next__ self with
    | (Return msg, self') => (msg :: (pull n self').1, (pull n self').2)
    | (Raise _, self') => ([], self')
    end.
Proof.
  simpl. destruct (__next__ self) as [[msg|e] self']; [|reflexivity].
  now destruct (pull n self').
Qed.

(** Once the stream is over, the consumer gets nothing more. *)
Lemma pull_done n self :
  _state self = "done" -> (pull n self).1 = [].
Proof.
  intros Hs. destruct n; [reflexivity|]. rewrite pull_unfold.
  pose proof (next_call_next self) as Hn.
  destruct (__next__ self) as [r self']. simpl in Hn.
  destruct (next_call_done _ _ _ Hn Hs) as (-> & _). reflexivity.
Qed.

(** From the event state with channel [c] open, enough pulls give a
    sequence framed by switches that holds exactly one channel-end. *)
Lemma pull_events_framed n self c :
  _state self = "events" ->
  _current_stream self = Some c ->
  (length (_current_events self) - _event_index self + 1 <= n)%nat ->
  switch_framed (Some c) (pull n self).1 = true /\
  count_stream_end (pull n self).1 = 1%nat.
Proof.
  revert self c. induction n as [|n IH]; intros self c Hs Hc Hn; [lia|].
  rewrite pull_unfold.
  pose proof (next_call_next self) as Hcall.
  pose proof (next_call_frame _ _ _ Hcall) as ((He & _) & _).
  destruct (__next__ self) as [r self']. simpl in Hcall, He.
  destruct (next_call_events _ _ _ Hcall Hs c Hc)
    as [(s & -> & Hsc & Hs' & Hc' & Hi')
       |[(m & -> & Hm & Hs' & Hc' & Hi') | (-> & Hs')]].
  - destruct (IH self' s Hs' Hc') as (Hf & Hcount); [rewrite He; lia|].
    simpl. split; [exact Hf | exact Hcount].
  - destruct (IH self' c Hs' Hc') as (Hf & Hcount); [rewrite He; lia|].
    simpl. rewrite Hm, bool_decide_eq_true_2 by reflexivity.
    split; [exact Hf | exact Hcount].
  - simpl. rewrite (pull_done n self' Hs').
    rewrite bool_decide_eq_true_2 by reflexivity. now split.
Qed.

(** A sequence framed by switches from an open channel is a body without
    channel-end followed by one channel-end. *)
Lemma switch_framed_shape msgs c :
  switch_framed (Some c) msgs = true ->
  exists body c',
    msgs = body ++ [StreamEndMessage c'] /\ count_stream_end body = 0%nat.
Proof.
  revert c. induction msgs as [|m msgs IH]; intros c H; simpl in H.
  - discriminate H.
  - destruct m as [s|m|s].
    + destruct (IH s H) as (body & c' & -> & Hb).
      exists (StreamBeginningMessage s :: body), c'. now split.
    + apply andb_prop in H as [_ H].
      destruct (IH c H) as (body & c' & -> & Hb).
      exists (EventMsg m :: body), c'. now split.
    + apply andb_prop in H as [_ H]. destruct msgs; [|discriminate].
      exists [], s. now split.
Qed.

(** In the event state, an event at the cursor that belongs to another
    channel than the open one is taken off the list: the call returns
    the channel-begin and leaves the cursor behind that event. *)
Lemma channel_switch_advances_cursor self event_data stream self1 :
  _state self = "events" ->
  _current_events self !! _event_index self = Some event_data ->
  _get_or_create_stream
    (set_event_index self (_event_index self + 1)) event_data
  = (stream, self1) ->
  Some stream <> _current_stream self ->
  __next__ self
  = (Return (StreamBeginningMessage stream),
     set_current_stream self1 (Some stream)) /\
  _event_index (set_current_stream self1 (Some stream))
  = S (_event_index self).
Proof.
  intros Hs Hl Hg Hne.
  destruct (get_or_create_stream_spec _ _ _ _ Hg)
    as (_ & _ & _ & Hi1 & Hc1 & _). simpl in Hi1, Hc1.
  split; [|simpl; rewrite Hi1; lia].
  unfold __next__, depth_needed.
  replace (length (_current_events self) - _event_index self + 2)%nat
    with (S (length (_current_events self) - _event_index self + 1))
    by lia.
  cbn [next_at_depth]. rewrite Hs. simpl. rewrite Hl, Hg.
  rewrite bool_decide_eq_true_2; [reflexivity|]. now rewrite Hc1.
Qed.

(** C1 (the code departs from it): with one region event followed by two
    kernel events of another channel, the kernel event met at the
    switch, stamped 1500, is never emitted; the sequence holds the
    channel-begin of the kernel channel and then the event stamped
    3500. *)
Theorem channel_switch_drops_event :
  exists m0 m1,
    messages (sample_iterator [region_a; kernel_b; kernel_b'])
    = [StreamBeginningMessage (sample_stream 0); EventMsg m0;
       StreamBeginningMessage (sample_stream 1); EventMsg m1;
       StreamEndMessage (sample_stream 1)] /\
    default_clock_snapshot m0 = timestamp region_a /\
    default_clock_snapshot m1 = timestamp kernel_b' /\
    clock_snapshots
      (messages (sample_iterator [region_a; kernel_b; kernel_b']))
    = [1000; 3500].
Proof.
  eexists _, _. split; [|split; [|split]].
  - vm_compute. reflexivity.
  - reflexivity.
  - reflexivity.
  - vm_compute. reflexivity.
Qed.

(** C2, as stated, fails: the channel of the region event is left
    without a channel-end when the kernel channel begins. *)
Lemma unbounded_channel_counterexample :
  ~ every_channel_bounded.
Proof.
  intros H.
  specialize (H (sample_iterator [region_a; kernel_b; kernel_b']) eq_refl).
  vm_compute in H. discriminate H.
Qed.

(** C2 (amended): the message sequence is empty when no event was
    loaded.  Otherwise it opens with a channel-begin and closes with the
    only channel-end, which is for the channel begun last; every event
    message is on the channel begun last before it, so no event of
    another channel stands between a channel-begin and the next
    channel-begin or the channel-end.  A channel left at a switch gets no
    channel-end of its own. *)
Theorem messages_framed_by_switches (self : RocmSourceIterator) :
  _state self = "stream_beginning" ->
  switch_framed None (messages self) = true /\
  (_current_events self = [] -> messages self = []) /\
  (_current_events self <> [] ->
   exists s body c,
     messages self
     = StreamBeginningMessage s :: body ++ [StreamEndMessage c] /\
     count_stream_end body = 0%nat).
Proof.
  intros Hs. unfold messages.
  replace (length (_current_events self) + 3)%nat
    with (S (length (_current_events self) + 2)) by lia.
  rewrite pull_unfold.
  pose proof (next_call_next self) as Hcall.
  destruct (__next__ self) as [r self']. simpl in Hcall.
  destruct (next_call_beginning _ _ _ Hcall Hs)
    as [(He & ->) | (s & Hne & -> & Hs' & Hc' & Hi' & He')].
  - simpl. repeat split; congruence.
  - destruct (pull_events_framed (length (_current_events self) + 2)
                self' s Hs' Hc') as (Hf & _); [rewrite He'; lia|].
    simpl. split; [exact Hf|]. split; [congruence|]. intros _.
    destruct (switch_framed_shape _ _ Hf) as (body & c & Hb & Hcount).
    exists s, body, c. now rewrite Hb.
Qed.

Lemma messages_framed_by_switches_witness :
  switch_framed None
    (messages (sample_iterator [region_a; kernel_b; kernel_b'; region_a']))
  = true.
Proof.
  apply (messages_framed_by_switches
           (sample_iterator [region_a; kernel_b; kernel_b'; region_a'])).
  reflexivity.
Defined.

(** ** Field population *)

(** After the loop over [event_args], the payload has the fields it
    started with, each holding the raw non-null value of its name if
    there is one, and its initial value if not. *)
Lemma set_event_fields_lookup (args : gmap string py_value)
    (payload : gmap string py_value) (key : string) :
  set_event_fields (Some args) payload !! key
  = match payload !! key with
    | Some d => Some (populated d (args !! key))
    | None => None
    end.
Proof.
  unfold set_event_fields. revert key.
  apply (map_fold_weak_ind
           (fun (r : gmap string py_value) (m : gmap string py_value) =>
              forall key,
                r !! key = match payload !! key with
                           | Some d => Some (populated d (m !! key))
                           | None => None
                           end)).
  - intros key. rewrite lookup_empty. simpl. now destruct (payload !! key).
  - intros i x m r Hi IH key.
    assert (Hdom : i ∈ dom r <-> is_Some (payload !! i)).
    { rewrite elem_of_dom, IH. destruct (payload !! i); split;
        intros [? ?]; eauto; discriminate. }
    destruct (decide (key = i)) as [->|Hne].
    + rewrite lookup_insert_eq. unfold populated.
      case_bool_decide as Hin.
      * apply Hdom in Hin as [d Hd]. rewrite Hd.
        case_bool_decide as Hv.
        -- rewrite lookup_insert_eq. now destruct (decide (x = PyNone)).
        -- rewrite IH, Hd, Hi. simpl.
           destruct (decide (x = PyNone)); [reflexivity|tauto].
      * rewrite IH. destruct (payload !! i) as [d|] eqn:Hd; [|reflexivity].
        exfalso. apply Hin, Hdom. eauto.
    + rewrite (lookup_insert_ne m) by congruence.
      rewrite <- IH.
      repeat case_bool_decide; try reflexivity.
      now rewrite lookup_insert_ne by congruence.
Qed.

Lemma new_payload_field_dom (ec : EventClass) :
  dom (new_payload_field ec) = declared_fields ec.
Proof.
  unfold new_payload_field, declared_fields.
  rewrite dom_list_to_map_L. f_equal.
  induction (payload_field_class ec) as [|m l IH]; [reflexivity|].
  cbn. f_equal. exact IH.
Qed.

(** A new payload field holds the default of the type its class
    declares for it. *)
Lemma new_payload_field_default (ec : EventClass) (key : string)
    (d : py_value) :
  new_payload_field ec !! key = Some d ->
  exists fc, (key, fc) ∈ payload_field_class ec /\ d = field_default fc.
Proof.
  unfold new_payload_field. intros H.
  apply elem_of_list_to_map_2 in H.
  apply list_elem_of_fmap in H as ([k fc] & [= -> ->] & Hin).
  exists fc. now split.
Qed.

(** The payload of the message built for an event. *)
Lemma event_message_payload (ec : EventClass) (stream : Stream)
    (event_data : RocmEventData) (key : string) :
  payload_field (event_message_for ec stream event_data) !! key
  = match new_payload_field ec !! key with
    | Some d => Some (populated d (arg key event_data))
    | None => None
    end.
Proof.
  unfold event_message_for, arg. simpl.
  destruct (event_args event_data) as [args|].
  - apply set_event_fields_lookup.
  - simpl. now destruct (new_payload_field ec !! key).
Qed.

Lemma event_message_dom (ec : EventClass) (stream : Stream)
    (event_data : RocmEventData) :
  dom (payload_field (event_message_for ec stream event_data))
  = declared_fields ec.
Proof.
  rewrite <- new_payload_field_dom. apply set_eq. intros key.
  rewrite !elem_of_dom, event_message_payload.
  destruct (new_payload_field ec !! key); split; intros [? ?];
    eauto; discriminate.
Qed.

(** An event message comes from a loaded event whose class was found in
    the table; it is on the open channel, which is the stream registered
    for the channel key of that event. *)
Lemma next_call_event_message self r self' :
  next_call self r self' ->
  forall msg, r = Return (EventMsg msg) ->
  exists event_data ec,
    event_data ∈ _current_events self /\
    lookup_event_class (_event_classes self) event_data = Some ec /\
    Some (event_stream msg) = _current_stream self /\
    msg = event_message_for ec (event_stream msg) event_data /\
    _streams self' !! _get_channel_id event_data = Some (event_stream msg).
Proof.
  induction 1 as
    [ self first_event rest stream self1 Hs He Hg
    | self Hs He
    | self event_data stream self1 Hs Hl Hg Hne
    | self event_data stream self1 ec Hs Hl Hg Heq Hc
    | self event_data stream self1 r self' Hs Hl Hg Heq Hc Hn IH
    | self r self' Hs Hl Hn IH
    | self stream Hs Hc
    | self Hs Hc
    | self H1 H2 H3 ];
    intros msg Hr; try discriminate Hr;
    try (destruct (get_or_create_stream_spec _ _ _ _ Hg)
           as ((He1 & Hec1 & _) & _ & _ & _ & Hc1 & Hreg & _);
         simpl in He1, Hec1, Hc1).
  - injection Hr as <-. exists event_data, ec.
    split; [eapply list_elem_of_lookup_2; exact Hl|].
    split; [congruence|]. split; [simpl; congruence|].
    split; [reflexivity | exact Hreg].
  - destruct (IH msg Hr) as (e & ec & Hin & Hlk & Hcur & Hm & Hreg').
    exists e, ec. rewrite He1 in Hin. rewrite Hec1 in Hlk.
    rewrite Hc1 in Hcur. now repeat split.
  - destruct (IH msg Hr) as (e & ec & Hin & Hlk & Hcur & Hm & Hreg').
    exists e, ec. now repeat split.
Qed.

(** C9: every event message [__next__] returns was built for a loaded
    event with the class resolved for it, and its payload has exactly
    the fields that class declares.  A field holds the raw value of its
    name when the raw payload has one that is not null, and the default
    of its type when the raw payload has none or a null one; a raw key
    the class does not declare appears nowhere in the payload. *)
Theorem payload_within_schema (self : RocmSourceIterator)
    (msg : EventMessage) (self' : RocmSourceIterator) :
  __next__ self = (Return (EventMsg msg), self') ->
  exists event_data,
    event_data ∈ _current_events self /\
    lookup_event_class (_event_classes self) event_data
    = Some (event_class msg) /\
    dom (payload_field msg) = declared_fields (event_class msg) /\
    (forall key,
       payload_field msg !! key
       = match new_payload_field (event_class msg) !! key with
         | Some d => Some (populated d (arg key event_data))
         | None => None
         end) /\
    (forall key d,
       new_payload_field (event_class msg) !! key = Some d ->
       exists fc,
         (key, fc) ∈ payload_field_class (event_class msg) /\
         d = field_default fc).
Proof.
  intros Hnext. pose proof (next_call_next self) as Hcall.
  rewrite Hnext in Hcall. simpl in Hcall.
  destruct (next_call_event_message _ _ _ Hcall msg eq_refl)
    as (event_data & ec & Hin & Hlk & _ & Hm & _).
  exists event_data. split; [exact Hin|].
  rewrite Hm at 1 2 3. simpl event_class at 1 2.
  split; [exact Hlk|]. split; [|split].
  - apply event_message_dom.
  - intros key. rewrite Hm at 1. rewrite event_message_payload.
    now rewrite Hm.
  - intros key d. apply new_payload_field_default.
Qed.

Lemma payload_within_schema_witness :
  exists msg self',
    __next__ sample_open_iterator = (Return (EventMsg msg), self') /\
    dom (payload_field msg) = declared_fields (event_class msg) /\
    payload_field msg !! "event_type" = Some (PyStr "kernel_dispatch_start") /\
    payload_field msg !! "kernel_name" = Some (PyStr "") /\
    payload_field msg !! "unlisted" = None.
Proof.
  assert (Hnext : exists msg self',
             __next__ sample_open_iterator = (Return (EventMsg msg), self')).
  { eexists _, _. vm_compute. reflexivity. }
  destruct Hnext as (msg & self' & Hnext).
  exists msg, self'. split; [exact Hnext|].
  destruct (payload_within_schema _ _ _ Hnext)
    as (event_data & _ & _ & Hdom & _ & _).
  split; [exact Hdom|].
  vm_compute in Hnext. injection Hnext as <- <-.
  repeat split; vm_compute; reflexivity.
Defined.

(** ** One stream per channel key *)

Lemma streams_consistent_ext a b :
  _trace b = _trace a -> _streams b = _streams a ->
  streams_consistent a -> streams_consistent b.
Proof. unfold streams_consistent. intros -> ->. auto. Qed.

Lemma get_or_create_stream_consistent self event_data stream self1 :
  _get_or_create_stream self event_data = (stream, self1) ->
  streams_consistent self -> streams_consistent self1.
Proof.
  unfold _get_or_create_stream.
  destruct (_streams self !! _get_channel_id event_data) as [known|] eqn:Hk.
  - now intros [= <- <-].
  - unfold create_stream. intros [= <- <-] (Hsize & Hrank & Hinj).
    unfold streams_consistent. simpl.
    rewrite length_app, map_size_insert_None by exact Hk. simpl.
    split; [lia|]. split.
    + intros key stream. rewrite lookup_insert.
      case_decide.
      * intros [= <-]. simpl. lia.
      * intros H'. apply Hrank in H'. lia.
    + intros key1 key2 stream. rewrite !lookup_insert.
      repeat case_decide; try congruence.
      * intros [= <-] H2. apply Hrank in H2. simpl in H2. lia.
      * intros H1 [= <-]. apply Hrank in H1. simpl in H1. lia.
      * apply Hinj.
Qed.

Lemma next_call_consistent self r self' :
  next_call self r self' ->
  streams_consistent self -> streams_consistent self'.
Proof.
  induction 1 as
    [ self first_event rest stream self1 Hs He Hg
    | self Hs He
    | self event_data stream self1 Hs Hl Hg Hne
    | self event_data stream self1 ec Hs Hl Hg Heq Hc
    | self event_data stream self1 r self' Hs Hl Hg Heq Hc Hn IH
    | self r self' Hs Hl Hn IH
    | self stream Hs Hc
    | self Hs Hc
    | self H1 H2 H3 ];
    intros Hcons;
    try (pose proof (get_or_create_stream_consistent _ _ _ _ Hg) as Hg';
         assert (Hcons1 : streams_consistent self1)
           by (apply Hg'; revert Hcons; apply streams_consistent_ext;
               reflexivity));
    try (now apply IH);
    try (revert Hcons; apply streams_consistent_ext; reflexivity);
    try (revert Hcons1; apply streams_consistent_ext; reflexivity);
    try assumption.
Qed.

(** The pulls keep every registered stream and the consistency of the
    registry. *)
Lemma pull_streams self n :
  streams_kept self (pull n self).2 /\
  (streams_consistent self -> streams_consistent (pull n self).2).
Proof.
  revert self. induction n as [|n IH]; intros self.
  - split; [apply streams_kept_refl | auto].
  - rewrite pull_unfold.
    pose proof (next_call_next self) as Hcall.
    destruct (__next__ self) as [r self']. simpl in Hcall.
    pose proof (next_call_frame _ _ _ Hcall) as (_ & Hk & _).
    pose proof (next_call_consistent _ _ _ Hcall) as Hc.
    destruct r as [msg|e]; simpl.
    + destruct (IH self') as (Hk' & Hc'). split.
      * eapply streams_kept_trans; eassumption.
      * auto.
    + split; assumption.
Qed.




(** A key that comes back after another channel gets its channel-begin
    on the stream it had: stream 0 begins twice, and no third stream is
    created. *)
Example reappearing_channel_same_stream :
  messages (sample_iterator [region_a; region_a'; kernel_b; region_a'])
  = [StreamBeginningMessage (sample_stream 0);
     EventMsg (event_message_for
                 (create_event_class "region_event" create_region_field_class)
                 (sample_stream 0) region_a);
     EventMsg (event_message_for
                 (create_event_class "region_event" create_region_field_class)
                 (sample_stream 0) region_a');
     StreamBeginningMessage (sample_stream 1);
     StreamBeginningMessage (sample_stream 0);
     StreamEndMessage (sample_stream 0)].
Proof. vm_compute. reflexivity. Qed.

(** The iterator as constructed: first state, cursor at the start, the
    sorted events of the source, no stream yet. *)
Lemma iterator_init_state connect output_port :
  exists self,
    RocmSourceIterator__init__ connect output_port = Return self /\
    _state self = "stream_beginning" /\
    _event_index self = 0%nat /\
    _current_events self
    = sort_by_key timestamp
        (events_in_load_order (connect (port_db_path output_port))) /\
    streams_consistent self.
Proof.
  unfold RocmSourceIterator__init__.
  match goal with
  | |- exists _, _load_events ?s = _ /\ _ =>
      destruct (load_events_returns s)
        as (self & Hl & _ & Hs & Hi & He & Hm & Ht)
  end.
  exists self. simpl in *. repeat split; try assumption.
  - rewrite Ht, Hm. simpl. now rewrite map_size_empty.
  - rewrite Hm. intros key stream H. now rewrite lookup_empty in H.
  - rewrite Hm. intros key1 key2 stream H. now rewrite lookup_empty in H.
Qed.

(** ** The loaded values fit the declared fields *)

Lemma created_class_cases class_name ec :
  _create_event_classes !! class_name = Some ec ->
  ec = create_event_class "region_event" create_region_field_class \/
  ec = create_event_class "kernel_dispatch_event" kernel_payload_fc \/
  ec = create_event_class "memory_copy_event" memory_payload_fc \/
  ec = create_event_class "memory_allocation_event" allocation_payload_fc \/
  ec = create_event_class "generic_event" generic_payload_fc.
Proof.
  unfold _create_event_classes. rewrite !lookup_insert, lookup_empty.
  repeat case_decide; intros [= <-]; tauto.
Qed.

Ltac split_field_membership H :=
  repeat match type of H with
         | _ ∈ _ :: _ => apply elem_of_cons in H as [H|H]
         | _ ∈ [] => now apply elem_of_nil in H
         end.

Ltac args_fit_tac :=
  let row := fresh "row" in
  let Hc := fresh "Hc" in
  let Hin := fresh "Hin" in
  let Ha := fresh "Ha" in
  intros row class_name ec key fc v Hc Hin Ha;
  apply created_class_cases in Hc as [->|[->|[->|[->| ->]]]];
  unfold create_event_class, create_region_field_class, kernel_payload_fc,
    memory_payload_fc, allocation_payload_fc, generic_payload_fc in Hin;
  cbn [payload_field_class] in Hin;
  split_field_membership Hin;
  injection Hin as -> ->;
  vm_compute in Ha;
  try discriminate Ha;
  injection Ha as <-;
  repeat match goal with
         | |- context [match ?x with Some _ => _ | None => _ end] =>
             destruct x
         end;
  exact I.

Lemma region_start_fits row : args_fit_classes (region_start_event row).
Proof. revert row. unfold args_fit_classes. args_fit_tac. Qed.

Lemma region_end_fits row : args_fit_classes (region_end_event row).
Proof. revert row. unfold args_fit_classes. args_fit_tac. Qed.

Lemma kernel_start_fits row : args_fit_classes (kernel_start_event row).
Proof. revert row. unfold args_fit_classes. args_fit_tac. Qed.

Lemma kernel_end_fits row : args_fit_classes (kernel_end_event row).
Proof. revert row. unfold args_fit_classes. args_fit_tac. Qed.

Lemma memory_copy_start_fits row :
  args_fit_classes (memory_copy_start_event row).
Proof. revert row. unfold args_fit_classes. args_fit_tac. Qed.

Lemma memory_copy_end_fits row :
  args_fit_classes (memory_copy_end_event row).
Proof. revert row. unfold args_fit_classes. args_fit_tac. Qed.

Lemma memory_allocation_start_fits row :
  args_fit_classes (memory_allocation_start_event row).
Proof. revert row. unfold args_fit_classes. args_fit_tac. Qed.

Lemma memory_allocation_end_fits row :
  args_fit_classes (memory_allocation_end_event row).
Proof. revert row. unfold args_fit_classes. args_fit_tac. Qed.

Lemma family_events_fit {R} (start_event end_event : R -> RocmEventData)
    (q : QueryResult R) (event_data : RocmEventData) :
  (forall row, args_fit_classes (start_event row)) ->
  (forall row, args_fit_classes (end_event row)) ->
  event_data ∈ family_events start_event end_event q ->
  args_fit_classes event_data.
Proof.
  intros Hs He Hin. destruct q as [msg|rows]; simpl in Hin.
  - now apply elem_of_nil in Hin.
  - apply list_elem_of_In, in_flat_map in Hin as (row & _ & Hrow).
    destruct Hrow as [<-|[<-|[]]]; auto.
Qed.

(** Every value the loader puts in [event_args] has the type of the
    field of the same name in each class of the component's table, or is
    null: the field assignments of [__next__] never meet a value of the
    wrong type. *)
Lemma loaded_events_fit_classes (conn : Connection)
    (event_data : RocmEventData) :
  event_data ∈ events_in_load_order conn ->
  args_fit_classes event_data.
Proof.
  unfold events_in_load_order. rewrite !elem_of_app.
  intros [H|[H|[H|H]]]; revert H; apply family_events_fit;
    auto using region_start_fits, region_end_fits, kernel_start_fits,
      kernel_end_fits, memory_copy_start_fits, memory_copy_end_fits,
      memory_allocation_start_fits, memory_allocation_end_fits.
Qed.

(** ** End of the stream *)

(** [__next__] never runs out of depth. *)
Lemma next_call_no_recursion_error self r self' :
  next_call self r self' -> r <> Raise RecursionError.
Proof. induction 1; try discriminate; assumption. Qed.

Lemma next_no_recursion_error self :
  (__next__ self).1 <> Raise RecursionError.
Proof. eapply next_call_no_recursion_error, next_call_next. Qed.

Lemma pull_done_state n self :
  _state self = "done" -> (pull n self).2 = self.
Proof.
  intros Hs. destruct n; [reflexivity|]. rewrite pull_unfold.
  pose proof (next_call_next self) as Hn.
  destruct (__next__ self) as [r self']. simpl in Hn.
  destruct (next_call_done _ _ _ Hn Hs) as (-> & ->). reflexivity.
Qed.

Lemma pull_events_done n self c :
  _state self = "events" ->
  _current_stream self = Some c ->
  (length (_current_events self) - _event_index self + 1 <= n)%nat ->
  _state (pull n self).2 = "done".
Proof.
  revert self c. induction n as [|n IH]; intros self c Hs Hc Hn; [lia|].
  rewrite pull_unfold.
  pose proof (next_call_next self) as Hcall.
  pose proof (next_call_frame _ _ _ Hcall) as ((He & _) & _).
  destruct (__next__ self) as [r self']. simpl in Hcall, He.
  destruct (next_call_events _ _ _ Hcall Hs c Hc)
    as [(s & -> & Hsc & Hs' & Hc' & Hi')
       |[(m & -> & Hm & Hs' & Hc' & Hi') | (-> & Hs')]]; simpl.
  - apply (IH self' s Hs' Hc'). rewrite He. lia.
  - apply (IH self' c Hs' Hc'). rewrite He. lia.
  - now rewrite pull_done_state.
Qed.

(** X6: The pulls that give [messages] leave the iterator at the end of the
    stream: every later call raises [StopIteration]. *)
Lemma messages_reach_end self :
  _state self = "stream_beginning" ->
  let self' := (pull (length (_current_events self) + 3) self).2 in
  _state self' = "done" /\ __next__ self' = (Raise StopIteration, self').
Proof.
  intros Hs self'.
  assert (Hdone : _state self' = "done").
  { subst self'.
    replace (length (_current_events self) + 3)%nat
      with (S (length (_current_events self) + 2)) by lia.
    rewrite pull_unfold.
    pose proof (next_call_next self) as Hcall.
    destruct (__next__ self) as [r self1]. simpl in Hcall.
    destruct (next_call_beginning _ _ _ Hcall Hs)
      as [(He & ->) | (s & Hne & -> & Hs' & Hc' & Hi' & He')]; simpl.
    - inversion Hcall; subst; try congruence; reflexivity.
    - apply (pull_events_done _ self1 s Hs' Hc'). rewrite He'. lia. }
  split; [exact Hdone|].
  pose proof (next_call_next self') as Hcall.
  destruct (__next__ self') as [r self2]. simpl in Hcall.
  now destruct (next_call_done _ _ _ Hcall Hdone) as (-> & ->).
Qed.

(** ** Order and number of the messages *)

(** An event message is built for the event at some position the call
    has moved the cursor over, and carries its timestamp. *)
Lemma next_call_event_index self r self' :
  next_call self r self' ->
  forall msg, r = Return (EventMsg msg) ->
  exists i event_data,
    _current_events self !! i = Some event_data /\
    (_event_index self <= i < _event_index self')%nat /\
    default_clock_snapshot msg = timestamp event_data.
Proof.
  induction 1 as
    [ self first_event rest stream self1 Hs He Hg
    | self Hs He
    | self event_data stream self1 Hs Hl Hg Hne
    | self event_data stream self1 ec Hs Hl Hg Heq Hc
    | self event_data stream self1 r self' Hs Hl Hg Heq Hc Hn IH
    | self r self' Hs Hl Hn IH
    | self stream Hs Hc
    | self Hs Hc
    | self H1 H2 H3 ];
    intros msg Hr; try discriminate Hr;
    try (destruct (get_or_create_stream_spec _ _ _ _ Hg)
           as ((He1 & _) & _ & _ & Hi1 & _);
         simpl in He1, Hi1).
  - injection Hr as <-. exists (_event_index self), event_data.
    split; [exact Hl|]. split; [lia | reflexivity].
  - destruct (IH msg Hr) as (i & e & Hi & Hrange & Hts).
    exists i, e. rewrite He1 in Hi. split; [exact Hi|].
    split; [lia | exact Hts].
  - destruct (IH msg Hr) as (i & e & Hi & Hrange & Hts).
    exists i, e. simpl in Hi, Hrange. now repeat split.
Qed.

Lemma drop_sublist_mono {A B} (f : A -> B) (l : list A) (i j : nat) :
  (i <= j)%nat -> f <$> drop j l `sublist_of` f <$> drop i l.
Proof.
  intros Hij. replace j with (i + (j - i))%nat by lia.
  rewrite <- drop_drop. apply fmap_sublist, sublist_drop.
Qed.

Lemma pull_snapshots_sublist n self :
  clock_snapshots (pull n self).1
  `sublist_of` timestamp <$> drop (_event_index self) (_current_events self).
Proof.
  revert self. induction n as [|n IH]; intros self.
  - apply sublist_nil_l.
  - rewrite pull_unfold.
    pose proof (next_call_next self) as Hcall.
    pose proof (next_call_frame _ _ _ Hcall) as ((He & _) & _ & Hle).
    pose proof (next_call_event_index _ _ _ Hcall) as Hidx.
    destruct (__next__ self) as [r self']. simpl in Hcall, He, Hle, Hidx.
    specialize (IH self'). rewrite He in IH.
    destruct r as [[s|m|s]|e]; simpl.
    + etransitivity; [exact IH|]. now apply drop_sublist_mono.
    + destruct (Hidx m eq_refl) as (i & ev & Hi & Hrange & ->).
      etransitivity;
        [|apply (drop_sublist_mono timestamp _ (_event_index self) i); lia].
      rewrite (drop_S _ _ _ Hi). cbn. apply sublist_skip.
      etransitivity; [exact IH|]. apply drop_sublist_mono. lia.
    + etransitivity; [exact IH|]. now apply drop_sublist_mono.
    + apply sublist_nil_l.
Qed.

Lemma StronglySorted_sublist {A} (R : A -> A -> Prop) (l1 l2 : list A) :
  l1 `sublist_of` l2 -> StronglySorted R l2 -> StronglySorted R l1.
Proof.
  induction 1 as [|x l1 l2 Hsub IH|x l1 l2 Hsub IH]; intros Hs.
  - constructor.
  - apply StronglySorted_inv in Hs as [Hs Hall]. constructor; [auto|].
    rewrite Forall_forall in Hall |- *. intros y Hy. apply Hall.
    eapply elem_of_sublist; eassumption.
  - apply StronglySorted_inv in Hs as [Hs _]. auto.
Qed.

Lemma StronglySorted_fmap {A B} (f : A -> B) (R : B -> B -> Prop)
    (l : list A) :
  StronglySorted (fun a b => R (f a) (f b)) l -> StronglySorted R (f <$> l).
Proof.
  induction 1 as [|x l Hs IH Hall]; cbn; constructor; [exact IH|].
  rewrite Forall_fmap. exact Hall.
Qed.

Lemma messages_snapshots_sublist (self : RocmSourceIterator) :
  clock_snapshots (messages self)
  `sublist_of` timestamp <$> _current_events self.
Proof.
  unfold messages. etransitivity; [apply pull_snapshots_sublist|].
  apply fmap_sublist, sublist_drop.
Qed.

Lemma messages_snapshots_sorted (self : RocmSourceIterator) :
  StronglySorted by_timestamp (_current_events self) ->
  StronglySorted Z.le (clock_snapshots (messages self)).
Proof.
  intros Hsorted.
  eapply StronglySorted_sublist; [apply messages_snapshots_sublist|].
  now apply StronglySorted_fmap.
Qed.

(** X3: The event messages follow the loaded events: their clock snapshots
    are timestamps of loaded events, taken in the order of the list and
    each event at most once.  When the list is sorted by timestamp, so
    are the clock snapshots of the messages. *)
Theorem event_messages_follow_events (self : RocmSourceIterator) :
  clock_snapshots (messages self)
  `sublist_of` timestamp <$> _current_events self /\
  (StronglySorted by_timestamp (_current_events self) ->
   StronglySorted Z.le (clock_snapshots (messages self))).
Proof.
  split; [apply messages_snapshots_sublist | apply messages_snapshots_sorted].
Qed.

Lemma event_messages_follow_events_witness :
  StronglySorted Z.le
    (clock_snapshots
       (messages (sample_iterator [region_a; kernel_b; kernel_b']))).
Proof.
  apply (event_messages_follow_events
           (sample_iterator [region_a; kernel_b; kernel_b'])).
  repeat constructor; unfold by_timestamp; simpl; lia.
Defined.


Lemma pull_events_length n self c :
  _state self = "events" ->
  _current_stream self = Some c ->
  (length (pull n self).1
   <= length (_current_events self) - _event_index self + 1)%nat.
Proof.
  revert self c. induction n as [|n IH]; intros self c Hs Hc;
    [simpl; lia|].
  rewrite pull_unfold.
  pose proof (next_call_next self) as Hcall.
  pose proof (next_call_frame _ _ _ Hcall) as ((He & _) & _).
  destruct (__next__ self) as [r self']. simpl in Hcall, He.
  destruct (next_call_events _ _ _ Hcall Hs c Hc)
    as [(s & -> & Hsc & Hs' & Hc' & Hi')
       |[(m & -> & Hm & Hs' & Hc' & Hi') | (-> & Hs')]]; simpl.
  - specialize (IH self' s Hs' Hc'). rewrite He in IH. lia.
  - specialize (IH self' c Hs' Hc'). rewrite He in IH. lia.
  - rewrite (pull_done n self' Hs'). simpl. lia.
Qed.

(** X5: The stream is bounded by the load: at most one message per loaded
    event, the first channel-begin and the channel-end; and there are no
    more event messages than loaded events. *)
Theorem message_count_bounded (self : RocmSourceIterator) :
  _state self = "stream_beginning" ->
  (length (messages self) <= length (_current_events self) + 2)%nat /\
  (length (clock_snapshots (messages self))
   <= length (_current_events self))%nat.
Proof.
  intros Hs. split.
  - unfold messages.
    replace (length (_current_events self) + 3)%nat
      with (S (length (_current_events self) + 2)) by lia.
    rewrite pull_unfold.
    pose proof (next_call_next self) as Hcall.
    destruct (__next__ self) as [r self']. simpl in Hcall.
    destruct (next_call_beginning _ _ _ Hcall Hs)
      as [(He & ->) | (s & Hne & -> & Hs' & Hc' & Hi' & He')]; simpl.
    + lia.
    + pose proof (pull_events_length
                    (length (_current_events self) + 2) self' s Hs' Hc')
        as Hlen.
      rewrite He' in Hlen. lia.
  - pose proof (messages_snapshots_sublist self) as Hsub.
    apply sublist_length in Hsub. now rewrite length_fmap in Hsub.
Qed.

Lemma message_count_bounded_witness :
  (length (messages (sample_iterator [region_a; kernel_b; kernel_b']))
   <= 5)%nat.
Proof.
  apply (message_count_bounded
           (sample_iterator [region_a; kernel_b; kernel_b'])).
  reflexivity.
Defined.

(** ** The message sequence, event by event *)

Lemma carries_kept streams streams' m em :
  (forall key s, streams !! key = Some s -> streams' !! key = Some s) ->
  carries streams m em -> carries streams' m em.
Proof.
  intros Hk. destruct m as [s|msg|s], em as [key|e ec|key]; simpl; auto.
  intros (s & Hs & Hm). exists s. auto.
Qed.

(** A call made with the channel of [key] open emits the next emission
    for the events from the cursor on and moves the cursor behind the
    events it stands for; or, past the last event, it ends the
    channel. *)
Lemma next_call_emission self r self' :
  next_call self r self' ->
  forall key c, channel_open self key c ->
  (exists m em key' c',
     r = Return m /\
     emissions_from (_event_classes self) key
       (drop (_event_index self) (_current_events self))
     = em :: emissions_from (_event_classes self) key'
               (drop (_event_index self') (_current_events self)) /\
     carries (_streams self') m em /\
     channel_open self' key' c' /\
     (_event_index self < _event_index self'
      <= length (_current_events self))%nat) \/
  (r = Return (StreamEndMessage c) /\
   emissions_from (_event_classes self) key
     (drop (_event_index self) (_current_events self))
   = [EndOf key] /\
   _state self' = "done" /\
   _streams self' !! key = Some c).
Proof.
  induction 1 as
    [ self first_event rest stream self1 Hs He Hg
    | self Hs He
    | self event_data stream self1 Hs Hl Hg Hne
    | self event_data stream self1 ec Hs Hl Hg Heq Hc
    | self event_data stream self1 r self' Hs Hl Hg Heq Hc Hn IH
    | self r self' Hs Hl Hn IH
    | self stream Hs Hc
    | self Hs Hc
    | self H1 H2 H3 ];
    intros key c (Hst & Hcur & Hkey & Hcons); try congruence;
    try (pose proof (get_or_create_stream_consistent _ _ _ _ Hg Hcons)
           as Hcons1;
         destruct (get_or_create_stream_spec _ _ _ _ Hg)
           as ((He1 & Hec1 & _) & Hk1 & Hs1 & Hi1 & Hc1 & Hreg & Hknown);
         simpl in He1, Hec1, Hs1, Hi1, Hc1, Hknown;
         pose proof (lookup_lt_Some _ _ _ Hl) as Hlt;
         rewrite (drop_S _ _ _ Hl); cbn [emissions_from]).
  - (* another channel begins *)
    left. exists (StreamBeginningMessage stream),
      (BeginOf (_get_channel_id event_data)),
      (_get_channel_id event_data), stream.
    split; [reflexivity|].
    assert (Hother : _get_channel_id event_data <> key).
    { intros Heq. rewrite Heq in Hknown.
      destruct (Hknown c Hkey) as (<- & _). apply Hne. now rewrite Hc1. }
    rewrite decide_False by exact Hother. simpl. rewrite Hi1.
    replace (_event_index self + 1)%nat with (S (_event_index self)) by lia.
    split; [reflexivity|]. split; [exact Hreg|].
    split; [|lia].
    split; [simpl; congruence|]. split; [reflexivity|].
    split; [exact Hreg | exact Hcons1].
  - (* an event of the open channel *)
    assert (stream = c) as -> by congruence.
    assert (Hsame : _get_channel_id event_data = key).
    { destruct Hcons1 as (_ & _ & Hinj).
      eapply Hinj; [exact Hreg|]. apply Hk1. exact Hkey. }
    left. exists (EventMsg (event_message_for ec c event_data)),
      (EventOf event_data ec), key, c.
    split; [reflexivity|].
    rewrite decide_True by exact Hsame. rewrite <- Hec1, Hc, Hi1.
    replace (_event_index self + 1)%nat with (S (_event_index self)) by lia.
    split; [reflexivity|].
    split; [exists c; split; [exact Hreg | reflexivity]|].
    split; [|lia].
    split; [congruence|]. split; [congruence|].
    split; [rewrite <- Hsame; exact Hreg | exact Hcons1].
  - (* an event of the open channel without a class *)
    assert (stream = c) as -> by congruence.
    assert (Hsame : _get_channel_id event_data = key).
    { destruct Hcons1 as (_ & _ & Hinj).
      eapply Hinj; [exact Hreg|]. apply Hk1. exact Hkey. }
    rewrite decide_True by exact Hsame. rewrite <- Hec1, Hc.
    assert (Hopen1 : channel_open self1 key c).
    { split; [congruence|]. split; [congruence|].
      split; [rewrite <- Hsame; exact Hreg | exact Hcons1]. }
    destruct (IH key c Hopen1)
      as [(m & em & key' & c' & -> & Hem & Hcar & Hopen' & Hrange)
         |(-> & Hem & Hdone & Hreg')].
    + left. exists m, em, key', c'.
      rewrite Hec1, He1, Hi1 in Hem.
      replace (_event_index self + 1)%nat
        with (S (_event_index self)) in Hem by lia.
      rewrite He1, Hi1 in Hrange.
      split; [reflexivity|]. split; [rewrite Hec1; exact Hem|].
      split; [exact Hcar|]. split; [exact Hopen' | lia].
    + right. rewrite Hec1, He1, Hi1 in Hem.
      replace (_event_index self + 1)%nat
        with (S (_event_index self)) in Hem by lia.
      split; [reflexivity|]. split; [rewrite Hec1; exact Hem|].
      split; [exact Hdone | exact Hreg'].
  - (* past the last event *)
    right.
    destruct (next_call_stream_end _ _ _ Hn eq_refl c Hcur) as (-> & Hdone).
    pose proof (next_call_frame _ _ _ Hn) as (_ & Hk & _).
    rewrite drop_ge by (apply lookup_ge_None; exact Hl).
    repeat split; try assumption. apply Hk. exact Hkey.
Qed.

Lemma pull_carries_emissions n self key c :
  channel_open self key c ->
  (length (_current_events self) - _event_index self + 1 <= n)%nat ->
  Forall2 (carries (_streams (pull n self).2)) (pull n self).1
    (emissions_from (_event_classes self) key
       (drop (_event_index self) (_current_events self))).
Proof.
  revert self key c. induction n as [|n IH]; intros self key c Hopen Hn;
    [lia|].
  rewrite pull_unfold.
  pose proof (next_call_next self) as Hcall.
  pose proof (next_call_frame _ _ _ Hcall) as ((He & Hec & _) & _).
  destruct (__next__ self) as [r self']. simpl in Hcall, He, Hec.
  destruct (next_call_emission _ _ _ Hcall key c Hopen)
    as [(m & em & key' & c' & -> & Hem & Hcar & Hopen' & Hrange)
       |(-> & Hem & Hdone & Hreg)]; simpl; rewrite Hem.
  - constructor.
    + eapply carries_kept; [|exact Hcar].
      exact (proj1 (pull_streams self' n)).
    + rewrite <- Hec, <- He. apply (IH self' key' c' Hopen').
      rewrite He. lia.
  - rewrite (pull_done n self' Hdone), (pull_done_state n self' Hdone).
    repeat constructor. exact Hreg.
Qed.

(** The first call with events loaded: the channel of the first event is
    open on the stream the message names. *)
Lemma next_call_beginning_open self r self' first_event rest :
  next_call self r self' ->
  _state self = "stream_beginning" ->
  _current_events self = first_event :: rest ->
  streams_consistent self ->
  exists s,
    r = Return (StreamBeginningMessage s) /\
    channel_open self' (_get_channel_id first_event) s /\
    _event_index self' = _event_index self.
Proof.
  intros Hn Hs He Hcons. inversion Hn; subst; try congruence.
  assert (first_event0 = first_event) as -> by congruence.
  pose proof (get_or_create_stream_consistent _ _ _ _ H1 Hcons) as Hcons1.
  destruct (get_or_create_stream_spec _ _ _ _ H1)
    as (_ & _ & _ & Hi1 & _ & Hreg & _).
  exists stream. split; [reflexivity|]. split; [|exact Hi1].
  split; [reflexivity|]. split; [reflexivity|].
  split; [exact Hreg | exact Hcons1].
Qed.

Lemma messages_emissions_aux (self : RocmSourceIterator) :
  _state self = "stream_beginning" ->
  _event_index self = 0%nat ->
  streams_consistent self ->
  Forall2
    (carries (_streams (pull (length (_current_events self) + 3) self).2))
    (messages self)
    (emissions (_event_classes self) (_current_events self)).
Proof.
  intros Hs Hi Hcons. unfold messages, emissions.
  replace (length (_current_events self) + 3)%nat
    with (S (length (_current_events self) + 2)) by lia.
  rewrite pull_unfold.
  pose proof (next_call_next self) as Hcall.
  pose proof (next_call_frame _ _ _ Hcall) as ((He & Hec & _) & _).
  destruct (__next__ self) as [r self']. simpl in Hcall, He, Hec.
  destruct (_current_events self) as [|first_event rest] eqn:Hev.
  - destruct (next_call_beginning _ _ _ Hcall Hs)
      as [(_ & ->) | (s & Hne & _)]; [constructor | congruence].
  - destruct (next_call_beginning_open _ _ _ _ _ Hcall Hs Hev Hcons)
      as (s & -> & Hopen & Hi').
    cbn [fst snd]. constructor.
    + eapply carries_kept; [exact (proj1 (pull_streams self' _))|].
      apply Hopen.
    + pose proof (pull_carries_emissions
                    (length (first_event :: rest) + 2) self' _ s Hopen)
        as Hpull.
      rewrite He, Hec, Hi', Hi in Hpull. simpl drop in Hpull.
      apply Hpull. simpl. lia.
Qed.

(** X1: The message sequence of an iterator as constructed is given, event
    by event, by the channel keys: the channel of the first event begins;
    then an event of the open channel gives an event message (none when
    no class is found for it), an event of another channel gives the
    channel-begin of its channel and no event message; after the last
    event the open channel ends.  Each message is on the stream
    registered for the key it stands for. *)
Theorem messages_are_emissions (self : RocmSourceIterator) :
  _state self = "stream_beginning" ->
  _event_index self = 0%nat ->
  streams_consistent self ->
  Forall2
    (carries (_streams (pull (length (_current_events self) + 3) self).2))
    (messages self)
    (emissions (_event_classes self) (_current_events self)).
Proof. apply messages_emissions_aux. Qed.

Lemma sample_iterator_consistent events :
  streams_consistent (sample_iterator events).
Proof.
  split; [reflexivity|]. split.
  - intros key stream H. simpl in H. now rewrite lookup_empty in H.
  - intros key1 key2 stream H. simpl in H. now rewrite lookup_empty in H.
Qed.

Lemma messages_are_emissions_witness :
  Forall2
    (carries
       (_streams
          (pull 7 (sample_iterator
                     [region_a; kernel_b; kernel_b'; region_a'])).2))
    (messages (sample_iterator [region_a; kernel_b; kernel_b'; region_a']))
    (emissions _create_event_classes
               [region_a; kernel_b; kernel_b'; region_a']).
Proof.
  apply (messages_are_emissions
           (sample_iterator [region_a; kernel_b; kernel_b'; region_a'])).
  - reflexivity.
  - reflexivity.
  - apply sample_iterator_consistent.
Defined.

Lemma carries_snapshots streams msgs ems :
  Forall2 (carries streams) msgs ems ->
  clock_snapshots msgs = emission_snapshots ems.
Proof.
  induction 1 as [|m em msgs ems Hc Hrest IH]; [reflexivity|].
  destruct m as [s|msg|s], em as [key|e ec|key]; simpl in Hc;
    try contradiction; simpl; try exact IH.
  destruct Hc as (s & _ & ->). simpl. now rewrite IH.
Qed.

(** With the generic class in the table, a class is found for every
    event. *)
Lemma lookup_event_class_generic event_classes generic event_data :
  event_classes !! "generic_event" = Some generic ->
  is_Some (lookup_event_class event_classes event_data).
Proof.
  intros Hg. unfold lookup_event_class.
  destruct (event_classes !! _get_event_class_name_by_category event_data);
    eauto.
Qed.

Lemma emissions_from_one_channel event_classes key events :
  (forall e, e ∈ events -> _get_channel_id e = key) ->
  (forall e, e ∈ events -> is_Some (lookup_event_class event_classes e)) ->
  emission_snapshots (emissions_from event_classes key events)
  = timestamp <$> events /\
  length (emissions_from event_classes key events) = S (length events).
Proof.
  induction events as [|e events IH]; intros Hkey Hcls; [now split|].
  cbn [emissions_from].
  rewrite decide_True by (apply Hkey; apply list_elem_of_here).
  destruct (Hcls e) as [ec ->]; [apply list_elem_of_here|].
  destruct IH as (IH1 & IH2).
  - intros e' He'. apply Hkey. now apply list_elem_of_further.
  - intros e' He'. apply Hcls. now apply list_elem_of_further.
  - split; [simpl; now rewrite IH1 | simpl; now rewrite IH2].
Qed.

(** X2: When all the loaded events are of one channel and the table has the
    generic class, no event is lost: the sequence is the channel-begin,
    one event message per event in the order of the list, and the
    channel-end. *)
Theorem one_channel_keeps_every_event (self : RocmSourceIterator)
    (key : string) (generic : EventClass) :
  _state self = "stream_beginning" ->
  _event_index self = 0%nat ->
  streams_consistent self ->
  _event_classes self !! "generic_event" = Some generic ->
  _current_events self <> [] ->
  (forall e, e ∈ _current_events self -> _get_channel_id e = key) ->
  clock_snapshots (messages self) = timestamp <$> _current_events self /\
  length (messages self) = (length (_current_events self) + 2)%nat.
Proof.
  intros Hs Hi Hcons Hg Hne Hkey.
  pose proof (messages_emissions_aux self Hs Hi Hcons) as Hall.
  pose proof (carries_snapshots _ _ _ Hall) as Hsnap.
  apply Forall2_length in Hall.
  rewrite Hsnap, Hall. unfold emissions.
  destruct (_current_events self) as [|first_event rest] eqn:He;
    [congruence|].
  destruct (emissions_from_one_channel (_event_classes self)
              (_get_channel_id first_event) (first_event :: rest))
    as (H1 & H2).
  - intros e Hin. rewrite (Hkey e Hin). symmetry. apply Hkey.
    apply list_elem_of_here.
  - intros e _. eapply lookup_event_class_generic, Hg.
  - split; [exact H1 | simpl in *; lia].
Qed.

Lemma one_channel_keeps_every_event_witness :
  clock_snapshots (messages (sample_iterator [region_a; region_a']))
  = [1000; 4000].
Proof.
  apply (one_channel_keeps_every_event
           (sample_iterator [region_a; region_a'])
           "HIP_RUNTIME_API_EXT_thread_1"
           (create_event_class "generic_event" generic_payload_fc)).
  - reflexivity.
  - reflexivity.
  - apply sample_iterator_consistent.
  - vm_compute. reflexivity.
  - discriminate.
  - intros e He. apply elem_of_cons in He as [->|He]; [reflexivity|].
    apply elem_of_cons in He as [->|He]; [reflexivity|].
    now apply elem_of_nil in He.
Defined.

(** ** Channel keys tell execution contexts apart *)

Lemma channel_key_by_context (event_data : RocmEventData) :
  _get_channel_id event_data
  = or_str (category event_data) "unknown" +:+
    ("_" +:+ (channel_context event_data).1 +:+ "_" +:+
     str_int (channel_context event_data).2).
Proof.
  unfold _get_channel_id, channel_context.
  destruct (tid event_data), (queue_id event_data), (stream_id event_data);
    reflexivity.
Qed.

Lemma kind_and_number_inj (k1 k2 : string) (n1 n2 : Z) :
  (k1 = "thread" \/ k1 = "queue" \/ k1 = "stream" \/ k1 = "default") ->
  (k2 = "thread" \/ k2 = "queue" \/ k2 = "stream" \/ k2 = "default") ->
  "_" +:+ k1 +:+ "_" +:+ str_int n1 = "_" +:+ k2 +:+ "_" +:+ str_int n2 ->
  k1 = k2 /\ n1 = n2.
Proof.
  intros [->|[->|[->| ->]]] [->|[->|[->| ->]]] H;
    apply (inj (String.app _)) in H;
    try (cbv [String.app String.rev String.rev_app] in H; discriminate H);
    (split; [reflexivity|]);
    repeat (apply (inj (String.app _)) in H);
    unfold str_int in H; now apply (inj pretty) in H.
Qed.

Lemma channel_context_kind (event_data : RocmEventData) :
  (channel_context event_data).1 = "thread" \/
  (channel_context event_data).1 = "queue" \/
  (channel_context event_data).1 = "stream" \/
  (channel_context event_data).1 = "default".
Proof.
  unfold channel_context.
  destruct (tid event_data), (queue_id event_data), (stream_id event_data);
    simpl; tauto.
Qed.

(** X7: Two events of the same category (an absent or empty one counting as
    ["unknown"]) have the same channel key exactly when they have the
    same execution context: the same kind of identifier, thread before
    queue before stream before process, with the same number.  So two
    threads, or a thread and a queue, of one category never share a
    channel. *)
Theorem channel_key_separates_contexts (a b : RocmEventData) :
  or_str (category a) "unknown" = or_str (category b) "unknown" ->
  (_get_channel_id a = _get_channel_id b <->
   channel_context a = channel_context b).
Proof.
  intros Hcat. rewrite !channel_key_by_context, Hcat. split.
  - intros H. apply (inj (String.app _)) in H.
    apply kind_and_number_inj in H; try apply channel_context_kind.
    destruct H as (H1 & H2).
    destruct (channel_context a), (channel_context b). simpl in *.
    congruence.
  - now intros ->.
Qed.

Lemma channel_key_separates_contexts_witness :
  _get_channel_id kernel_b <> _get_channel_id
    (sample_event "kernel_dispatch_start" 1500 (Some "KERNEL_DISPATCH")
                  None (Some 2)).
Proof.
  intros H.
  apply (channel_key_separates_contexts kernel_b
           (sample_event "kernel_dispatch_start" 1500
                         (Some "KERNEL_DISPATCH") None (Some 2)))
    in H; [discriminate H | reflexivity].
Defined.

(** ** The payloads of a run are typed *)

Lemma created_class_names_distinct class_name ec :
  _create_event_classes !! class_name = Some ec ->
  NoDup (payload_field_class ec).*1.
Proof.
  intros H.
  apply created_class_cases in H as [->|[->|[->|[->| ->]]]];
    refine (bool_decide_unpack _ _); vm_compute; exact I.
Qed.

Lemma lookup_event_class_created event_data ec :
  lookup_event_class _create_event_classes event_data = Some ec ->
  exists class_name, _create_event_classes !! class_name = Some ec.
Proof.
  unfold lookup_event_class.
  destruct (_create_event_classes
              !! _get_event_class_name_by_category event_data) eqn:H.
  - intros [= <-]. eauto.
  - eauto.
Qed.

Lemma field_default_typed fc : has_type (field_default fc) fc.
Proof. now destruct fc. Qed.

Lemma well_typed_has_type v fc :
  well_typed v fc -> v <> PyNone -> has_type v fc.
Proof. destruct v, fc; simpl; tauto. Qed.

(** The message built for an event whose values fit, with a class of the
    component's table: every declared field holds a value of its type. *)
Lemma event_message_typed class_name ec stream event_data :
  _create_event_classes !! class_name = Some ec ->
  args_fit_classes event_data ->
  payload_typed (event_message_for ec stream event_data).
Proof.
  intros Hec Hfit key fc Hin. cbn [event_class event_message_for] in Hin.
  rewrite event_message_payload.
  assert (Hd : new_payload_field ec !! key = Some (field_default fc)).
  { unfold new_payload_field.
    apply elem_of_list_to_map_1.
    - rewrite <- list_fmap_compose.
      erewrite list_fmap_ext; [eapply created_class_names_distinct, Hec|].
      now intros i [k f] _.
    - apply list_elem_of_fmap. exists (key, fc). now split. }
  rewrite Hd. eexists. split; [reflexivity|].
  unfold populated. destruct (arg key event_data) as [v|] eqn:Ha.
  - destruct (decide (v = PyNone)); [apply field_default_typed|].
    apply well_typed_has_type; [|assumption].
    eapply Hfit; eassumption.
  - apply field_default_typed.
Qed.

Lemma pull_messages_typed n self :
  _event_classes self = _create_event_classes ->
  (forall e, e ∈ _current_events self -> args_fit_classes e) ->
  Forall message_typed (pull n self).1.
Proof.
  revert self. induction n as [|n IH]; intros self Hec Hfit;
    [constructor|].
  rewrite pull_unfold.
  pose proof (next_call_next self) as Hcall.
  pose proof (next_call_frame _ _ _ Hcall) as ((He & Hec' & _) & _).
  pose proof (next_call_event_message _ _ _ Hcall) as Hmsg.
  destruct (__next__ self) as [r self']. simpl in Hcall, He, Hec', Hmsg.
  destruct r as [m|e]; [|constructor]. cbn [fst]. constructor.
  - destruct m as [s|msg|s]; simpl; try exact I.
    destruct (Hmsg msg eq_refl) as (e & ec & Hin & Hlk & _ & -> & _).
    rewrite Hec in Hlk.
    destruct (lookup_event_class_created _ _ Hlk) as (class_name & Hc).
    eapply event_message_typed; [exact Hc | now apply Hfit].
  - apply IH; [congruence|]. now rewrite He.
Qed.

Lemma same_setup_refl self : same_setup self self.
Proof. repeat split. Qed.

Lemma same_setup_trans a b c :
  same_setup a b -> same_setup b c -> same_setup a c.
Proof.
  intros (H1 & H2 & H3 & H4 & H5 & H6) (H1' & H2' & H3' & H4' & H5' & H6').
  repeat split; congruence.
Qed.

Lemma load_loop_setup {R} (start_event end_event : R -> RocmEventData)
    (rows : list R) (self : RocmSourceIterator) :
  let self' :=
    fold_left
      (fun (self : RocmSourceIterator) (row : R) =>
         append_event (append_event self (start_event row)) (end_event row))
      rows self in
  same_setup self self' /\ stdout self' = stdout self.
Proof.
  revert self. induction rows as [|row rows IH]; intros self; simpl.
  - split; [apply same_setup_refl | reflexivity].
  - destruct (IH (append_event (append_event self (start_event row))
                               (end_event row))) as (Hs & Ho).
    split; [|exact Ho].
    eapply same_setup_trans; [|exact Hs]. repeat split.
Qed.

Ltac loader_log_tac start_event end_event :=
  let self := fresh "self" in
  let msg := fresh "msg" in
  let rows := fresh "rows" in
  intros self;
  match goal with
  | |- exists _, ?load self = _ /\ _ =>
      unfold load, execute_fetchall, error_lines
  end;
  match goal with
  | |- context [match ?q with QueryFails _ => _ | QueryRows _ => _ end] =>
      destruct q as [msg|rows]
  end;
  eexists; (split; [reflexivity|]);
  [ split; [repeat split | reflexivity]
  | destruct (load_loop_setup start_event end_event rows self) as (Hs & Ho);
    split; [exact Hs | rewrite app_nil_r; exact Ho] ].

Lemma region_loader_log :
  loader_log region_query _load_region_events "region".
Proof. loader_log_tac region_start_event region_end_event. Qed.

Lemma kernel_loader_log :
  loader_log kernel_dispatch_query _load_kernel_dispatch_events
             "kernel dispatch".
Proof. loader_log_tac kernel_start_event kernel_end_event. Qed.

Lemma memory_copy_loader_log :
  loader_log memory_copy_query _load_memory_copy_events "memory copy".
Proof.
  loader_log_tac memory_copy_start_event memory_copy_end_event.
Qed.

Lemma memory_allocation_loader_log :
  loader_log memory_allocation_query _load_memory_allocation_events
             "memory allocation".
Proof.
  loader_log_tac memory_allocation_start_event memory_allocation_end_event.
Qed.

Lemma events_in_load_order_length (conn : Connection) :
  length (events_in_load_order conn)
  = (2 * (match region_query conn with
          | QueryRows rows => length rows | QueryFails _ => 0 end +
          match kernel_dispatch_query conn with
          | QueryRows rows => length rows | QueryFails _ => 0 end +
          match memory_copy_query conn with
          | QueryRows rows => length rows | QueryFails _ => 0 end +
          match memory_allocation_query conn with
          | QueryRows rows => length rows | QueryFails _ => 0 end))%nat.
Proof.
  unfold events_in_load_order, family_events. rewrite !length_app.
  destruct (region_query conn), (kernel_dispatch_query conn),
    (memory_copy_query conn), (memory_allocation_query conn);
    rewrite ?flat_map_pairs_length; simpl; lia.
Qed.

Lemma load_prints_failures_and_count_aux (self : RocmSourceIterator) :
  exists self',
    _load_events self = Return self' /\
    same_setup self self' /\
    stdout self'
    = stdout self ++
      error_lines "region" (region_query (_conn self)) ++
      error_lines "kernel dispatch" (kernel_dispatch_query (_conn self)) ++
      error_lines "memory copy" (memory_copy_query (_conn self)) ++
      error_lines "memory allocation"
                  (memory_allocation_query (_conn self)) ++
      ["Loaded " +:+
       str_int (Z.of_nat (length (events_in_load_order (_conn self)))) +:+
       " events from database"] /\
    length (_current_events self')
    = length (events_in_load_order (_conn self)).
Proof.
  destruct (load_events_returns self)
    as (final & Hload & _ & _ & _ & Hev & _).
  exists final. split; [exact Hload|].
  assert (Hlen : length (_current_events final)
                 = length (events_in_load_order (_conn self))).
  { rewrite Hev. apply Permutation_length, sort_by_key_perm. }
  revert Hload Hlen. unfold _load_events.
  destruct (region_loader_effect (set_current_events self []))
    as (s1 & E1 & Hc1 & _).
  destruct (region_loader_log (set_current_events self []))
    as (s1' & E1' & Hs1 & Ho1).
  rewrite E1 in E1'. injection E1' as <-. rewrite E1. cbn [and_then].
  destruct (kernel_loader_effect s1) as (s2 & E2 & Hc2 & _).
  destruct (kernel_loader_log s1) as (s2' & E2' & Hs2 & Ho2).
  rewrite E2 in E2'. injection E2' as <-. rewrite E2. cbn [and_then].
  destruct (memory_copy_loader_effect s2) as (s3 & E3 & Hc3 & _).
  destruct (memory_copy_loader_log s2) as (s3' & E3' & Hs3 & Ho3).
  rewrite E3 in E3'. injection E3' as <-. rewrite E3. cbn [and_then].
  destruct (memory_allocation_loader_effect s3) as (s4 & E4 & Hc4 & _).
  destruct (memory_allocation_loader_log s3) as (s4' & E4' & Hs4 & Ho4).
  rewrite E4 in E4'. injection E4' as <-. rewrite E4. cbn [and_then].
  intros [= <-] Hlen. simpl in Hlen |- *.
  split; [|split; [|exact Hlen]].
  - eapply same_setup_trans; [|exact Hs4].
    eapply same_setup_trans; [|exact Hs3].
    eapply same_setup_trans; [|exact Hs2].
    eapply same_setup_trans; [|exact Hs1]. repeat split.
  - rewrite Hlen, Ho4, Ho3, Ho2, Ho1, Hc3, Hc2, Hc1. simpl.
    now rewrite <- !app_assoc.
Qed.

(** X12: The load prints one line per family whose query failed, in the
    order region, kernel dispatch, memory copy, memory allocation, each
    with the message of the failure, and closes with the number of
    events loaded, which is twice the number of rows matched by the
    queries that succeeded.  It leaves the classes, the channel registry
    and the open stream as they were. *)
Theorem load_prints_failures_and_count (self : RocmSourceIterator) :
  exists self',
    _load_events self = Return self' /\
    same_setup self self' /\
    stdout self'
    = stdout self ++
      error_lines "region" (region_query (_conn self)) ++
      error_lines "kernel dispatch" (kernel_dispatch_query (_conn self)) ++
      error_lines "memory copy" (memory_copy_query (_conn self)) ++
      error_lines "memory allocation"
                  (memory_allocation_query (_conn self)) ++
      ["Loaded " +:+
       str_int (Z.of_nat (length (events_in_load_order (_conn self)))) +:+
       " events from database"] /\
    length (_current_events self')
    = length (events_in_load_order (_conn self)).
Proof. apply load_prints_failures_and_count_aux. Qed.

Lemma load_prints_failures_and_count_witness :
  exists self',
    _load_events (sample_iterator []) = Return self' /\
    stdout self'
    = ["Error loading memory copy events: no such table: rocpd_memory_copy";
       "Loaded 4 events from database"].
Proof.
  destruct (load_prints_failures_and_count (sample_iterator []))
    as (self' & Hload & _ & Hout & _).
  exists self'. split; [exact Hload|]. rewrite Hout.
  vm_compute. reflexivity.
Defined.

(** The iterator as constructed has the classes of its port. *)
Lemma iterator_init_classes connect output_port self :
  RocmSourceIterator__init__ connect output_port = Return self ->
  _event_classes self = port_event_classes output_port.
Proof.
  unfold RocmSourceIterator__init__.
  match goal with
  | |- _load_events ?s = _ -> _ =>
      destruct (load_prints_failures_and_count_aux s)
        as (self' & Hload & (_ & _ & Hec & _) & _)
  end.
  rewrite Hload. intros [= <-]. exact Hec.
Qed.

(** ** Runs of the source *)

(** The port the component adds for a path. *)
Lemma source_init_port exists_ params source :
  RocmSource__init__ exists_ params = Return source ->
  chosen_db_path params <> "" /\
  exists_ (chosen_db_path params) = true /\
  exists port,
    output_ports source = [("out", port)] /\
    port_db_path port = chosen_db_path params /\
    port_event_classes port = _create_event_classes.
Proof.
  unfold RocmSource__init__. fold (chosen_db_path params).
  destruct (String.eqb_spec (chosen_db_path params) ""); [discriminate|].
  destruct (exists_ (chosen_db_path params)); [|discriminate].
  simpl. intros [= <-]. simpl. split; [assumption|]. split; [reflexivity|].
  eexists. repeat split.
Qed.

(** A run that returns is the message sequence of the iterator built on
    the chosen path with the component's classes. *)
Lemma run_source_returns exists_ connect params msgs :
  run_source exists_ connect params = Return msgs ->
  exists self,
    msgs = messages self /\
    _state self = "stream_beginning" /\
    _event_index self = 0%nat /\
    _event_classes self = _create_event_classes /\
    _current_events self
    = sort_by_key timestamp
        (events_in_load_order (connect (chosen_db_path params))) /\
    streams_consistent self.
Proof.
  unfold run_source.
  destruct (RocmSource__init__ exists_ params) as [source|e] eqn:Hsrc;
    [|discriminate].
  destruct (source_init_port _ _ _ Hsrc)
    as (_ & _ & port & Hports & Hpath & Hclasses).
  cbn [and_then]. rewrite Hports.
  destruct (iterator_init_state connect port)
    as (self & Hinit & Hs & Hi & He & Hcons).
  rewrite Hinit. cbn [and_then]. intros [= <-].
  exists self. rewrite <- Hpath, <- Hclasses.
  repeat split; try assumption.
  - eapply iterator_init_classes, Hinit.
  - apply Hcons.
  - apply Hcons.
  - apply Hcons.
Qed.


(** X10: End to end: whatever the database holds, every event message of a
    run of the source has, in each field its class declares, a value of
    the type of the field: a string in a string field, an integer in an
    integer field, never a null. *)
Theorem run_payloads_typed (exists_ : string -> bool)
    (connect : string -> Connection) (params : gmap string bt_value)
    (msgs : list Message) :
  run_source exists_ connect params = Return msgs ->
  Forall message_typed msgs.
Proof.
  intros Hrun.
  destruct (run_source_returns _ _ _ _ Hrun)
    as (self & -> & _ & _ & Hec & He & _).
  apply pull_messages_typed; [exact Hec|].
  intros e Hin. rewrite He, sort_by_key_perm in Hin.
  eapply loaded_events_fit_classes. exact Hin.
Qed.


Lemma run_payloads_typed_witness :
  exists msgs,
    run_source (fun _ => true) (fun _ => sample_connection) sample_params
    = Return msgs /\
    Forall message_typed msgs.
Proof.
  assert (Hrun : exists msgs,
             run_source (fun _ => true) (fun _ => sample_connection)
                        sample_params = Return msgs).
  { eexists. vm_compute. reflexivity. }
  destruct Hrun as (msgs & Hrun).
  exists msgs. split; [exact Hrun|].
  exact (run_payloads_typed _ _ _ _ Hrun).
Defined.


(** ** The three families with a class of their own *)

(** X13: Every kernel dispatch, memory copy and memory allocation event the
    loader builds resolves to the class of its family in the
    component's table, and that class declares every key of the event's
    raw payload: nothing the loader stored for these families is
    discarded when the fields are set. *)
Theorem family_events_keep_their_fields :
  (forall row,
     resolves_without_loss (kernel_start_event row)
       "kernel_dispatch_event" kernel_payload_fc) /\
  (forall row,
     resolves_without_loss (kernel_end_event row)
       "kernel_dispatch_event" kernel_payload_fc) /\
  (forall row,
     resolves_without_loss (memory_copy_start_event row)
       "memory_copy_event" memory_payload_fc) /\
  (forall row,
     resolves_without_loss (memory_copy_end_event row)
       "memory_copy_event" memory_payload_fc) /\
  (forall row,
     resolves_without_loss (memory_allocation_start_event row)
       "memory_allocation_event" allocation_payload_fc) /\
  (forall row,
     resolves_without_loss (memory_allocation_end_event row)
       "memory_allocation_event" allocation_payload_fc).
Proof.
  repeat split; try reflexivity;
    refine (bool_decide_unpack _ _); vm_compute; exact I.
Qed.

(** ** Region events *)



Lemma messages_reach_end_witness :
  __next__ (pull 5 (sample_iterator [region_a; kernel_b])).2
  = (Raise StopIteration, (pull 5 (sample_iterator [region_a; kernel_b])).2).
Proof.
  apply (messages_reach_end (sample_iterator [region_a; kernel_b])).
  reflexivity.
Defined.

(** X9: Every value the loader stores in the raw payload of an event is
    null or has the type of the field of the same name in every class of
    the component's table: setting the fields never meets a string
    where an integer is declared, or the reverse, whatever the class the
    event resolves to. *)
Theorem loader_values_fit_declared_fields (conn : Connection)
    (event_data : RocmEventData) :
  event_data ∈ events_in_load_order conn ->
  args_fit_classes event_data.
Proof. apply loaded_events_fit_classes. Qed.

Lemma loader_values_fit_declared_fields_witness :
  well_typed (PyInt 12) (signed_integer_field_class 64).
Proof.
  apply (loader_values_fit_declared_fields
           {| region_query := QueryRows [sample_region_row];
              kernel_dispatch_query := QueryRows [];
              memory_copy_query := QueryRows [];
              memory_allocation_query := QueryRows [] |}
           (region_start_event sample_region_row)
           ltac:(apply list_elem_of_here)
           "region_event"
           (create_event_class "region_event" create_region_field_class)
           "correlation_id").
  - reflexivity.
  - vm_compute. repeat (first [apply list_elem_of_here
                              | apply list_elem_of_further]).
  - reflexivity.
Defined.

(** ** The identifier of the data set *)

(** When [partition_at] finds no separator, there is none. *)
Lemma partition_at_none (sep : ascii) (s : string) :
  partition_at sep s = None -> free_of sep s.
Proof.
  unfold free_of. induction s as [|c s IH]; simpl.
  - intros _ [|b before] after; discriminate.
  - destruct (Ascii.eqb_spec c sep) as [->|Hne]; [discriminate|].
    destruct (partition_at sep s) as [[before after]|]; [discriminate|].
    intros _ [|b before] after; cbn [String.append].
    + intros [= -> _]. contradiction.
    + intros [= _ Hs]. exact (IH eq_refl before after Hs).
Qed.

(** A text free of the separator, then the separator, then more text:
    [partition_at] cuts at that separator. *)
Lemma partition_at_app (sep : ascii) (a rest : string) :
  free_of sep a ->
  partition_at sep (a +:+ String sep rest) = Some (a, rest).
Proof.
  unfold free_of. induction a as [|c a IH]; intros Hfree;
    cbn [String.append]; simpl partition_at.
  - now destruct (Ascii.eqb_spec sep sep).
  - destruct (Ascii.eqb_spec c sep) as [->|Hne].
    + now destruct (Hfree "" a).
    + rewrite IH; [reflexivity|].
      intros before after ->. now apply (Hfree (String c before) after).
Qed.

(** X15: The identifier is what follows the second underscore of the name of
    the first table listed: for a table named [a_b_rest], with no
    underscore in [a] and [b], it is [rest], underscores of [rest]
    included.  A failing query and an empty list give the built-in
    identifier.  The call never raises and returns the same text
    twice. *)
Theorem db_metadata_after_second_underscore :
  (forall a b rest others,
     free_of "_" a -> free_of "_" b ->
     _get_db_metadata
       (QueryRows ((a +:+ "_" +:+ b +:+ "_" +:+ rest) :: others))
     = Return (rest, rest)) /\
  (forall msg,
     _get_db_metadata (QueryFails msg)
     = Return (fallback_uuid, fallback_uuid)) /\
  _get_db_metadata (QueryRows []) = Return (fallback_uuid, fallback_uuid) /\
  (forall tables, exists uuid, _get_db_metadata tables = Return (uuid, uuid)).
Proof.
  split; [|split; [|split]]; try reflexivity.
  - intros a b rest others Ha Hb. unfold _get_db_metadata.
    cbn [execute_fetchall split_max].
    change ("_" +:+ b +:+ "_" +:+ rest)
      with (String "_" (b +:+ String "_" rest)).
    rewrite (partition_at_app "_" a _ Ha).
    rewrite (partition_at_app "_" b _ Hb). reflexivity.
  - intros [msg|[|table_name tables]]; eexists; reflexivity.
Qed.

Lemma db_metadata_after_second_underscore_witness :
  _get_db_metadata
    (QueryRows ["rocpd_region_0000b6ad_2bac"; "rocpd_string_0000b6ad_2bac"])
  = Return ("0000b6ad_2bac", "0000b6ad_2bac").
Proof.
  destruct db_metadata_after_second_underscore as (H & _).
  apply (H "rocpd" "region" "0000b6ad_2bac");
    apply partition_at_none; reflexivity.
Defined.

(** ** The analyzer *)

Lemma channels_in_order_snoc events event :
  Analyzer.channels_in_order (events ++ [event])
  = if decide (Analyzer.get_channel_id event
               ∈ Analyzer.channels_in_order events)
    then Analyzer.channels_in_order events
    else Analyzer.channels_in_order events ++ [Analyzer.get_channel_id event].
Proof.
  unfold Analyzer.channels_in_order.
  rewrite fmap_app, reverse_app. cbn [fmap list_fmap reverse app].
  change (reverse [Analyzer.get_channel_id event])
    with [Analyzer.get_channel_id event].
  cbn [app remove_dups].
  destruct (decide_rel elem_of _ _) as [Hin|Hout].
  - rewrite decide_True; [reflexivity|].
    now rewrite elem_of_reverse, elem_of_remove_dups.
  - rewrite decide_False.
    + now rewrite reverse_cons.
    + now rewrite elem_of_reverse, elem_of_remove_dups.
Qed.

Lemma channels_in_order_elem events key :
  key ∈ Analyzer.channels_in_order events
  <-> exists event, event ∈ events /\ Analyzer.get_channel_id event = key.
Proof.
  unfold Analyzer.channels_in_order.
  rewrite elem_of_reverse, elem_of_remove_dups, elem_of_reverse,
    list_elem_of_fmap.
  split; intros (e & H1 & H2); exists e; auto.
Qed.

Lemma filter_channel_absent events key :
  key ∉ Analyzer.channels_in_order events ->
  filter (fun e => Analyzer.get_channel_id e = key) events = [].
Proof.
  intros Hout. induction events as [|e events IH]; [reflexivity|].
  rewrite filter_cons. destruct (decide _) as [Heq|Hne].
  - exfalso. apply Hout, channels_in_order_elem. exists e.
    split; [apply list_elem_of_here | exact Heq].
  - apply IH. intros Hin. apply Hout.
    apply channels_in_order_elem in Hin as (e' & Hin & Hk).
    apply channels_in_order_elem. exists e'.
    split; [now apply list_elem_of_further | exact Hk].
Qed.

Lemma grouping_partitions_aux (events : list RocmEventData) :
  Analyzer.group_by_channel events
  = (fun key =>
       (key, filter (fun e => Analyzer.get_channel_id e = key) events))
    <$> Analyzer.channels_in_order events.
Proof.
  unfold Analyzer.group_by_channel.
  induction events as [|event events IH] using rev_ind; [reflexivity|].
  rewrite fold_left_app. cbn [fold_left]. rewrite IH.
  unfold Analyzer.group_event.
  rewrite <- list_fmap_compose.
  assert (Hkeys :
            (fst ∘ (fun key =>
                      (key,
                       filter (fun e => Analyzer.get_channel_id e = key)
                              events)))
            <$> Analyzer.channels_in_order events
            = Analyzer.channels_in_order events).
  { rewrite <- (list_fmap_id (Analyzer.channels_in_order events)) at 2.
    apply list_fmap_ext. now intros i key _. }
  rewrite Hkeys, channels_in_order_snoc.
  set (id := Analyzer.get_channel_id event).
  assert (Hmap : forall keys,
             map (fun kv : string * list RocmEventData =>
                    if String.eqb kv.1 id then (kv.1, kv.2 ++ [event])
                    else kv)
                 ((fun key =>
                     (key, filter (fun e => Analyzer.get_channel_id e = key)
                                  events)) <$> keys)
             = (fun key =>
                  (key, filter (fun e => Analyzer.get_channel_id e = key)
                               (events ++ [event]))) <$> keys).
  { intros keys. induction keys as [|key keys IHk]; [reflexivity|].
    cbn [fmap list_fmap map] in *. rewrite IHk. f_equal.
    cbn [fst snd]. rewrite filter_app, filter_cons, filter_nil.
    fold id. destruct (String.eqb_spec key id) as [->|Hne].
    - now rewrite decide_True.
    - rewrite decide_False by congruence. now rewrite app_nil_r. }
  case_bool_decide as Hin; destruct (decide _) as [Hin'|Hout'];
    try contradiction.
  - rewrite map_app, Hmap, fmap_app. f_equal.
    cbn [map fmap list_fmap fst snd]. rewrite String.eqb_refl.
    rewrite filter_app, filter_channel_absent by exact Hin.
    rewrite filter_cons, decide_True by reflexivity. reflexivity.
  - apply Hmap.
Qed.

(** X16: The grouping loop of the analysis gives one entry per channel key, in
    the order in which the keys first appear; the entry of a key holds
    the events of that key, all of them and in the order of the list. *)
Theorem grouping_partitions_events (events : list RocmEventData) :
  Analyzer.group_by_channel events
  = (fun key =>
       (key, filter (fun e => Analyzer.get_channel_id e = key) events))
    <$> Analyzer.channels_in_order events.
Proof. apply grouping_partitions_aux. Qed.

Lemma filter_lengths_step (keys : list string) (e : RocmEventData)
    (events : list RocmEventData) :
  NoDup keys ->
  sum_list
    ((fun key =>
        length (filter (fun e0 => Analyzer.get_channel_id e0 = key)
                       (e :: events))) <$> keys)
  = ((if decide (Analyzer.get_channel_id e ∈ keys) then 1 else 0) +
     sum_list
       ((fun key =>
           length (filter (fun e0 => Analyzer.get_channel_id e0 = key)
                          events)) <$> keys))%nat.
Proof.
  induction 1 as [|key keys Hout Hnd IHk]; [reflexivity|].
  rewrite !fmap_cons. cbn [sum_list_with]. rewrite IHk.
  rewrite filter_cons.
  destruct (decide (Analyzer.get_channel_id e = key)) as [Heq|Hne];
    destruct (decide (Analyzer.get_channel_id e ∈ keys)) as [Hin|Hnin];
    destruct (decide (Analyzer.get_channel_id e ∈ key :: keys)) as [H1|H1];
    simpl; try lia; exfalso; rewrite ?elem_of_cons in *; subst; tauto.
Qed.

Lemma filter_lengths_sum (keys : list string) (events : list RocmEventData) :
  NoDup keys ->
  sum_list
    ((fun key =>
        length (filter (fun e => Analyzer.get_channel_id e = key) events))
     <$> keys)
  = length (filter (fun e => Analyzer.get_channel_id e ∈ keys) events).
Proof.
  intros Hnd. induction events as [|e events IH].
  - induction keys as [|key keys IHk]; [reflexivity|].
    rewrite fmap_cons. cbn [sum_list_with]. rewrite IHk; [reflexivity|].
    now apply NoDup_cons_1_2 in Hnd.
  - rewrite (filter_cons (fun e => Analyzer.get_channel_id e ∈ keys)).
    rewrite filter_lengths_step, IH by exact Hnd.
    destruct (decide (Analyzer.get_channel_id e ∈ keys)); simpl; lia.
Qed.

Lemma filter_keeps_all (keys : list string) (l : list RocmEventData) :
  (forall x, x ∈ l -> Analyzer.get_channel_id x ∈ keys) ->
  filter (fun e => Analyzer.get_channel_id e ∈ keys) l = l.
Proof.
  induction l as [|x l IHl]; intros H; [reflexivity|].
  rewrite filter_cons, decide_True by (apply H, list_elem_of_here).
  f_equal. apply IHl. intros y Hy. apply H.
  now apply list_elem_of_further.
Qed.

(** X17: The groups the analysis prints are sound: no key comes twice, no
    group is empty, and the sizes of the groups add up to the number of
    events. *)
Theorem grouping_counts_add_up (events : list RocmEventData) :
  NoDup (Analyzer.group_by_channel events).*1 /\
  Forall (fun kv => kv.2 <> []) (Analyzer.group_by_channel events) /\
  sum_list ((fun kv => length kv.2) <$> Analyzer.group_by_channel events)
  = length events.
Proof.
  rewrite grouping_partitions_aux.
  assert (Hnd : NoDup (Analyzer.channels_in_order events)).
  { unfold Analyzer.channels_in_order. rewrite reverse_Permutation.
    apply NoDup_remove_dups. }
  split; [|split].
  - rewrite <- list_fmap_compose.
    erewrite list_fmap_ext; [rewrite list_fmap_id; exact Hnd|].
    now intros i key _.
  - apply Forall_fmap, Forall_forall. intros key Hin. simpl.
    apply channels_in_order_elem in Hin as (e & Hin & Hk).
    intros Hnil.
    assert (He : e ∈ filter (fun e0 => Analyzer.get_channel_id e0 = key)
                            events)
      by (apply list_elem_of_filter; now split).
    rewrite Hnil in He. now apply elem_of_nil in He.
  - rewrite <- list_fmap_compose.
    erewrite list_fmap_ext;
      [rewrite (filter_lengths_sum _ events Hnd)|now intros i key _].
    f_equal. apply filter_keeps_all.
    intros x Hx. apply channels_in_order_elem. now exists x.
Qed.

(** X18: The plugin's channel key is the analyzer's, behind the category
    (["unknown"] for an absent or empty one) and an underscore: both
    follow the same priority of thread, queue, stream and process. *)
Theorem plugin_key_extends_analyzer_key (event_data : RocmEventData) :
  _get_channel_id event_data
  = or_str (category event_data) "unknown" +:+ "_" +:+
    Analyzer.get_channel_id event_data.
Proof.
  unfold _get_channel_id, Analyzer.get_channel_id.
  destruct (tid event_data), (queue_id event_data), (stream_id event_data);
    reflexivity.
Qed.

(** X19: [get_events_by_category] returns its events sorted by timestamp.
    Asked for a category that is neither ["all"] nor one of the eight it
    names, it returns no event and prints nothing, whatever the database
    holds under that category.  No category and ["all"] mean the
    same. *)
Theorem events_by_category_selection (conn : Analyzer.Connection) :
  (forall category,
     StronglySorted by_timestamp
       (Analyzer.get_events_by_category conn category).1) /\
  (forall c,
     c <> "all" -> c ∉ Analyzer.region_categories ->
     c <> "KERNEL_DISPATCH" -> c <> "MEMORY_COPY" ->
     c <> "MEMORY_ALLOCATION" ->
     Analyzer.get_events_by_category conn (Some c) = ([], [])) /\
  Analyzer.get_events_by_category conn None
  = Analyzer.get_events_by_category conn (Some "all").
Proof.
  split; [|split].
  - intros category. unfold Analyzer.get_events_by_category. cbn [fst].
    apply (sort_by_key_sorted timestamp).
  - intros c Hall Hreg Hk Hc Ha. unfold Analyzer.get_events_by_category.
    rewrite bool_decide_eq_false_2 by (intros [H|H]; congruence).
    rewrite bool_decide_eq_false_2 by exact Hreg.
    destruct (String.eqb_spec c "KERNEL_DISPATCH"); [contradiction|].
    destruct (String.eqb_spec c "MEMORY_COPY"); [contradiction|].
    destruct (String.eqb_spec c "MEMORY_ALLOCATION"); [contradiction|].
    reflexivity.
  - unfold Analyzer.get_events_by_category.
    rewrite !bool_decide_eq_true_2 by auto. reflexivity.
Qed.

Lemma events_by_category_selection_witness :
  Analyzer.get_events_by_category sample_analyzer_connection
    (Some "HIP_RUNTIME_API")
  = ([], []).
Proof.
  destruct (events_by_category_selection sample_analyzer_connection)
    as (_ & H & _).
  apply H; try discriminate.
  unfold Analyzer.region_categories. intros Hin.
  repeat (apply elem_of_cons in Hin as [Hin|Hin]; [discriminate Hin|]).
  now apply elem_of_nil in Hin.
Defined.

Lemma analyzer_load_rows {R} (start_event end_event : R -> RocmEventData)
    (rows : list R) :
  Analyzer.load_rows start_event end_event rows
  = flat_map (fun row => [start_event row; end_event row]) rows.
Proof.
  unfold Analyzer.load_rows.
  assert (H : forall acc,
             fold_left
               (fun events row =>
                  (events ++ [start_event row]) ++ [end_event row])
               rows acc
             = acc ++ flat_map (fun row => [start_event row; end_event row])
                               rows).
  { induction rows as [|row rows IH]; intros acc; simpl.
    - now rewrite app_nil_r.
    - rewrite IH. now rewrite <- !app_assoc. }
  apply H.
Qed.

Lemma analyzer_region_loader conn cat :
  Analyzer._load_region_events conn (Some cat)
  = (family_events Analyzer.region_start_event Analyzer.region_end_event
       (Analyzer.region_query conn (category_filter cat)),
     error_lines "region" (Analyzer.region_query conn (category_filter cat))).
Proof.
  unfold Analyzer._load_region_events, category_filter.
  destruct (Analyzer.region_query conn _); simpl;
    [reflexivity | now rewrite analyzer_load_rows].
Qed.

Lemma analyzer_regions_fold conn cats acc :
  fold_left
    (fun events cat =>
       Analyzer.extend events (Analyzer._load_region_events conn (Some cat)))
    cats acc
  = (acc.1 ++
     flat_map
       (fun cat =>
          family_events Analyzer.region_start_event Analyzer.region_end_event
            (Analyzer.region_query conn (category_filter cat))) cats,
     acc.2 ++
     flat_map
       (fun cat =>
          error_lines "region"
            (Analyzer.region_query conn (category_filter cat))) cats).
Proof.
  revert acc. induction cats as [|cat cats IH]; intros [events printed].
  - simpl. now rewrite !app_nil_r.
  - cbn [fold_left]. rewrite IH, analyzer_region_loader.
    unfold Analyzer.extend. cbn [fst snd flat_map].
    now rewrite <- !app_assoc.
Qed.

(** X20: Asked for every category, the analyzer returns, sorted by timestamp
    with ties in loading order, the regions of each category the
    database lists followed by the kernel dispatches, the memory copies
    and the memory allocations, two events per row.  A query that fails
    adds one line to what is printed and no event; the other queries
    still give all their events. *)
Theorem analyzer_loads_every_family (conn : Analyzer.Connection) :
  Analyzer.get_events_by_category conn None
  = (sort_by_key timestamp (analyzer_load_order conn),
     analyzer_load_log conn).
Proof.
  unfold Analyzer.get_events_by_category.
  rewrite bool_decide_eq_true_2 by auto.
  rewrite analyzer_regions_fold.
  unfold Analyzer.extend, analyzer_load_order, analyzer_load_log.
  unfold Analyzer._load_kernel_dispatch_events,
    Analyzer._load_memory_copy_events,
    Analyzer._load_memory_allocation_events.
  destruct (Analyzer.kernel_dispatch_query conn),
    (Analyzer.memory_copy_query conn),
    (Analyzer.memory_allocation_query conn);
    cbn [fst snd app family_events error_lines];
    rewrite ?analyzer_load_rows, ?app_nil_r, <- ?app_assoc; reflexivity.
Qed.

(** ** The registry of channels *)

Lemma channels_describe_ext a b :
  _channels b = _channels a -> _streams b = _streams a ->
  channels_describe_streams a -> channels_describe_streams b.
Proof. unfold channels_describe_streams. intros -> ->. auto. Qed.

Lemma get_or_create_stream_channels self event_data stream self1 :
  _get_or_create_stream self event_data = (stream, self1) ->
  channels_describe_streams self -> channels_describe_streams self1.
Proof.
  unfold _get_or_create_stream.
  destruct (_streams self !! _get_channel_id event_data) as [known|] eqn:Hk.
  - now intros [= <- <-].
  - unfold create_stream. intros [= <- <-] (Hdom & Hinfo).
    unfold channels_describe_streams. simpl. split.
    + rewrite !dom_insert_L. now rewrite Hdom.
    + intros key info. rewrite lookup_insert. case_decide as Hkey.
      * intros [= <-]. simpl. split; [exact Hkey|].
        exists event_data. now repeat split.
      * apply Hinfo.
Qed.

Lemma next_call_channels self r self' :
  next_call self r self' ->
  channels_describe_streams self -> channels_describe_streams self'.
Proof.
  induction 1 as
    [ self first_event rest stream self1 Hs He Hg
    | self Hs He
    | self event_data stream self1 Hs Hl Hg Hne
    | self event_data stream self1 ec Hs Hl Hg Heq Hc
    | self event_data stream self1 r self' Hs Hl Hg Heq Hc Hn IH
    | self r self' Hs Hl Hn IH
    | self stream Hs Hc
    | self Hs Hc
    | self H1 H2 H3 ];
    intros Hd;
    try (pose proof (get_or_create_stream_channels _ _ _ _ Hg) as Hg';
         assert (Hd1 : channels_describe_streams self1)
           by (apply Hg'; revert Hd; apply channels_describe_ext;
               reflexivity));
    try (now apply IH);
    try (revert Hd; apply channels_describe_ext; reflexivity);
    try (revert Hd1; apply channels_describe_ext; reflexivity);
    try assumption.
Qed.

Lemma pull_channels n self :
  channels_describe_streams self ->
  channels_describe_streams (pull n self).2.
Proof.
  revert self. induction n as [|n IH]; intros self Hd; [exact Hd|].
  rewrite pull_unfold.
  pose proof (next_call_next self) as Hcall.
  destruct (__next__ self) as [r self']. simpl in Hcall.
  pose proof (next_call_channels _ _ _ Hcall Hd) as Hd'.
  destruct r as [msg|e]; simpl; auto.
Qed.

(** X8: At every point of the life of a constructed iterator, the channel
    registry has exactly the keys of the stream registry, and the entry
    of a key records that key together with the category and the
    thread, queue and stream of an event of that key. *)
Theorem channel_registry_follows_streams (connect : string -> Connection)
    (output_port : PortData) (self : RocmSourceIterator) (n : nat) :
  RocmSourceIterator__init__ connect output_port = Return self ->
  channels_describe_streams (pull n self).2.
Proof.
  intros Hinit. apply pull_channels.
  unfold RocmSourceIterator__init__ in Hinit.
  match type of Hinit with
  | _load_events ?s = _ =>
      destruct (load_prints_failures_and_count_aux s)
        as (s1 & Hl1 & (_ & _ & _ & _ & Hch & _) & _);
      destruct (load_events_returns s)
        as (s2 & Hl2 & _ & _ & _ & _ & Hst & _)
  end.
  rewrite Hl1 in Hl2. injection Hl2 as <-.
  rewrite Hl1 in Hinit. injection Hinit as <-.
  split.
  - rewrite Hch, Hst. reflexivity.
  - intros key info. rewrite Hch. simpl. now rewrite lookup_empty.
Qed.

Lemma channel_registry_follows_streams_witness :
  exists self,
    RocmSourceIterator__init__ (fun _ => sample_connection)
      {| port_db_path := "trace.db";
         port_stream_classes := _create_stream_classes sample_clock;
         port_event_classes := _create_event_classes;
         port_clock_class := sample_clock |} = Return self /\
    channels_describe_streams (pull 2 self).2.
Proof.
  assert (Hinit : exists self,
             RocmSourceIterator__init__ (fun _ => sample_connection)
               {| port_db_path := "trace.db";
                  port_stream_classes := _create_stream_classes sample_clock;
                  port_event_classes := _create_event_classes;
                  port_clock_class := sample_clock |} = Return self).
  { eexists. vm_compute. reflexivity. }
  destruct Hinit as (self & Hinit).
  exists self. split; [exact Hinit|].
  exact (channel_registry_follows_streams _ _ self 2 Hinit).
Defined.
